(** * LogParser: a shallow embedding of [logfile_parser.py]

    The development follows the Python class [LogParser]: the pattern
    table, [detect_format], [parse_request], the three line extractors,
    the file loop [parse_log] and the tabulation [analyze].

    Modelling conventions.
    - A Python [str] is a [string]; characters are the code points below
      256, on which the character classes of [re] and of [str.strip] /
      [str.split] are written out exactly.
    - A Python [dict] is an insertion-ordered association list.
    - [re.match] is a backtracking matcher over the syntax tree of the
      three patterns, with the priorities of Python's engine (greedy and
      lazy repetition, ordered alternation) and numbered groups.
    - Exceptions are values of [exc]; [try/except ValueError] is a match.
    - [datetime.strptime] is a library function: the extractors take it
      as a parameter [strptime], [None] standing for [ValueError].
    - [int] raises [ValueError] on a text of more than 4300 digits, the
      default limit of the interpreter. *)

From Stdlib Require Import String Ascii List ZArith Bool Arith Lia Sorted.
Import ListNotations.
Open Scope string_scope.
Open Scope Z_scope.

(** ** Exceptions *)

Inductive exn : Type := ValueError | KeyError | TypeError.

Inductive exc (A : Type) : Type :=
| Ok (a : A)
| Raise (e : exn).
Arguments Ok {A} a.
Arguments Raise {A} e.

Definition bind {A B : Type} (m : exc A) (f : A -> exc B) : exc B :=
  match m with
  | Ok a => f a
  | Raise e => Raise e
  end.

Notation "x <- m ;; k" := (bind m (fun x => k))
  (at level 61, m at next level, right associativity).

(** ** Characters and strings *)

Definition code (a : ascii) : nat := nat_of_ascii a.

Definition LF : ascii := ascii_of_nat 10.
Definition CR : ascii := ascii_of_nat 13.
Definition DQ : ascii := ascii_of_nat 34.

Definition in_range (lo hi : nat) (a : ascii) : bool :=
  (Nat.leb lo (code a) && Nat.leb (code a) hi)%bool.

(** [\d] of a [str] pattern: the decimal digits. *)
Definition is_digit (a : ascii) : bool := in_range 48 57 a.

(** [\w] of a [str] pattern: alphanumerics and the underscore. *)
Definition is_word (a : ascii) : bool :=
  (in_range 48 57 a || in_range 65 90 a || in_range 97 122 a
   || in_range 95 95 a || in_range 170 170 a || in_range 178 179 a
   || in_range 181 181 a || in_range 185 186 a || in_range 188 190 a
   || in_range 192 214 a || in_range 216 246 a || in_range 248 255 a)%bool.

(** The whitespace of [str.strip()] and [str.split()]. *)
Definition is_space (a : ascii) : bool :=
  (in_range 9 13 a || in_range 28 32 a || in_range 133 133 a
   || in_range 160 160 a)%bool.

Definition str1 (a : ascii) : string := String a EmptyString.

(** A text between double quotes. *)
Definition quoted (s : string) : string := String DQ (s ++ str1 DQ).

Fixpoint str_forall (p : ascii -> bool) (s : string) : bool :=
  match s with
  | EmptyString => true
  | String a s' => (p a && str_forall p s')%bool
  end.

Definition is_empty (s : string) : bool :=
  match s with
  | EmptyString => true
  | String _ _ => false
  end.

Fixpoint lstrip (s : string) : string :=
  match s with
  | EmptyString => EmptyString
  | String a s' => if is_space a then lstrip s' else s
  end.

Fixpoint rstrip (s : string) : string :=
  match s with
  | EmptyString => EmptyString
  | String a s' =>
      let r := rstrip s' in
      if (is_space a && is_empty r)%bool then EmptyString else String a r
  end.

(** [s.strip()] *)
Definition strip (s : string) : string := rstrip (lstrip s).

(** [s.split()]: the maximal runs of non-whitespace, in order. *)
Fixpoint split_ws_aux (s : string) (cur : string) : list string :=
  match s with
  | EmptyString => if is_empty cur then [] else [cur]
  | String a s' =>
      if is_space a
      then (if is_empty cur then split_ws_aux s' EmptyString
            else cur :: split_ws_aux s' EmptyString)
      else split_ws_aux s' (cur ++ str1 a)
  end.

Definition split_ws (s : string) : list string := split_ws_aux s EmptyString.

(** ** [int] on text *)

Definition digit_val (a : ascii) : Z := Z.of_nat (code a) - 48.

Fixpoint digits_val (acc : Z) (s : string) : Z :=
  match s with
  | EmptyString => acc
  | String a s' => digits_val (10 * acc + digit_val a) s'
  end.

(** Digits with single underscores between them, as [int] accepts. *)
Fixpoint int_body (s : string) (after_digit : bool) (acc : Z) : option Z :=
  match s with
  | EmptyString => if after_digit then Some acc else None
  | String a s' =>
      if is_digit a then int_body s' true (10 * acc + digit_val a)
      else if (Ascii.eqb a "_" && after_digit)%bool
           then match s' with
                | EmptyString => None
                | String b _ => if is_digit b then int_body s' false acc else None
                end
           else None
  end.

(** [sys.get_int_max_str_digits()]: the interpreter's limit on the
    number of digits of a decimal text that [int] converts, at its
    default value (CPython 3.11 and later). *)
Definition int_max_str_digits : Z := 4300.

(** The digits of [s], separators not counted. *)
Fixpoint digit_count (s : string) : nat :=
  match s with
  | EmptyString => O
  | String a s' => ((if is_digit a then 1 else 0) + digit_count s')%nat
  end.

(** [int(s)] for a [str]: surrounding whitespace, an optional sign, then
    decimal digits; anything else raises [ValueError], and so does a text
    of more than [int_max_str_digits] digits. *)
Definition py_int (s : string) : exc Z :=
  let t := strip s in
  let '(neg, body) :=
    match t with
    | String "-" t' => (true, t')
    | String "+" t' => (false, t')
    | _ => (false, t)
    end in
  match int_body body false 0 with
  | Some n =>
      if Z.of_nat (digit_count body) <=? int_max_str_digits
      then Ok (if neg then - n else n)
      else Raise ValueError
  | None => Raise ValueError
  end.

(** ** Regular expressions *)

Inductive cclass : Type :=
| CLit (c : ascii)   (* a literal character *)
| CDigit             (* \d *)
| CWord              (* \w *)
| CAny.              (* .  : anything but a newline *)

Definition in_class (c : cclass) (a : ascii) : bool :=
  match c with
  | CLit x => Ascii.eqb a x
  | CDigit => is_digit a
  | CWord => is_word a
  | CAny => negb (Ascii.eqb a LF)
  end.

Inductive regex : Type :=
| Eps
| Atom (c : cclass)
| Rep (c : cclass) (lo : nat) (hi : option nat) (greedy : bool)
| Cat (r1 r2 : regex)
| Alt (r1 r2 : regex)
| Grp (i : nat) (r : regex).

(** Captured groups, most recent binding first. *)
Definition captures : Type := list (nat * string).

Fixpoint group (i : nat) (c : captures) : option string :=
  match c with
  | [] => None
  | (j, s) :: c' => if Nat.eqb i j then Some s else group i c'
  end.

Definition can_more (hi : option nat) : bool :=
  match hi with
  | Some O => false
  | _ => true
  end.

Definition dec_hi (hi : option nat) : option nat :=
  match hi with
  | Some n => Some (Nat.pred n)
  | None => None
  end.

(** Repetition of a one-character atom between [lo] and [hi] times,
    followed by the continuation [k].  Greedy: one more character is
    tried before stopping; lazy: stopping is tried first. *)
Fixpoint rep {A : Type} (c : cclass) (lo : nat) (hi : option nat) (greedy : bool)
    (s : string) (k : string -> option A) : option A :=
  let more (_ : unit) :=
    match s with
    | String a s' =>
        if (in_class c a && can_more hi)%bool
        then rep c (Nat.pred lo) (dec_hi hi) greedy s' k
        else None
    | EmptyString => None
    end in
  match lo with
  | S _ => more tt
  | O =>
      if greedy
      then match more tt with
           | Some x => Some x
           | None => k s
           end
      else match k s with
           | Some x => Some x
           | None => more tt
           end
  end.

(** The text of [s] consumed before its suffix [s']. *)
Definition consumed (s s' : string) : string :=
  substring 0 (String.length s - String.length s') s.

(** The backtracking matcher: [rmatch r s caps k] matches [r] at the head
    of [s] and passes the rest and the groups to [k]; when [k] fails the
    next alternative in priority order is tried. *)
Fixpoint rmatch {A : Type} (r : regex) (s : string) (caps : captures)
    (k : string -> captures -> option A) : option A :=
  match r with
  | Eps => k s caps
  | Atom c =>
      match s with
      | String a s' => if in_class c a then k s' caps else None
      | EmptyString => None
      end
  | Rep c lo hi g => rep c lo hi g s (fun s' => k s' caps)
  | Cat r1 r2 => rmatch r1 s caps (fun s' caps' => rmatch r2 s' caps' k)
  | Alt r1 r2 =>
      match rmatch r1 s caps k with
      | Some x => Some x
      | None => rmatch r2 s caps k
      end
  | Grp i r1 =>
      rmatch r1 s caps (fun s' caps' => k s' ((i, consumed s s') :: caps'))
  end.

Fixpoint ngroups (r : regex) : nat :=
  match r with
  | Cat r1 r2 | Alt r1 r2 => ngroups r1 + ngroups r2
  | Grp _ r1 => S (ngroups r1)
  | _ => O
  end.

(** [re.match(pattern, s)] followed by [.groups()]: [None] when there is
    no match at the start of [s]. *)
Definition re_match (r : regex) (s : string) : option (list (option string)) :=
  rmatch r s [] (fun _ caps =>
    Some (map (fun i => group i caps) (seq 1 (ngroups r)))).

(** Pattern syntax. *)
Fixpoint lit (s : string) : regex :=
  match s with
  | EmptyString => Eps
  | String a s' => Cat (Atom (CLit a)) (lit s')
  end.

Fixpoint cat (rs : list regex) : regex :=
  match rs with
  | [] => Eps
  | r :: rs' => Cat r (cat rs')
  end.

Definition star_lazy (c : cclass) : regex := Rep c 0 None false.
Definition star (c : cclass) : regex := Rep c 0 None true.
Definition plus (c : cclass) : regex := Rep c 1 None true.
Definition upto3 (c : cclass) : regex := Rep c 1 (Some 3%nat) true.

(** [\d{1,3}\.\d{1,3}\.\d{1,3}\.\d{1,3}] *)
Definition dotted_quad : regex :=
  cat [upto3 CDigit; lit "."; upto3 CDigit; lit ".";
       upto3 CDigit; lit "."; upto3 CDigit].

(** [(\d{1,3}\.\d{1,3}\.\d{1,3}\.\d{1,3}) - - \[(.*?)\] "(.*?)" (\d+) (\d+|-)] *)
Definition apache_re : regex :=
  cat [Grp 1 dotted_quad; lit " - - [";
       Grp 2 (star_lazy CAny); lit "] "; Atom (CLit DQ);
       Grp 3 (star_lazy CAny); Atom (CLit DQ); lit " ";
       Grp 4 (plus CDigit); lit " ";
       Grp 5 (Alt (plus CDigit) (lit "-"))].

(** [(\d{1,3}\.\d{1,3}\.\d{1,3}\.\d{1,3}) - .* \[(.*?)\] "(.*?)" (\d+) (\d+) "(.*?)" "(.*?)"] *)
Definition nginx_re : regex :=
  cat [Grp 1 dotted_quad; lit " - "; star CAny; lit " [";
       Grp 2 (star_lazy CAny); lit "] "; Atom (CLit DQ);
       Grp 3 (star_lazy CAny); Atom (CLit DQ); lit " ";
       Grp 4 (plus CDigit); lit " ";
       Grp 5 (plus CDigit); lit " "; Atom (CLit DQ);
       Grp 6 (star_lazy CAny); Atom (CLit DQ); lit " "; Atom (CLit DQ);
       Grp 7 (star_lazy CAny); Atom (CLit DQ)].

(** [\[(.*?)\] \[(\w+)\] \[(.*?)\] ] and a fourth group: the greedy rest
    of the line. *)
Definition app_re : regex :=
  cat [lit "["; Grp 1 (star_lazy CAny); lit "] [";
       Grp 2 (plus CWord); lit "] [";
       Grp 3 (star_lazy CAny); lit "] ";
       Grp 4 (star CAny)].

(** [self.patterns], in insertion order. *)
Definition patterns : list (string * regex) :=
  [("apache", apache_re); ("nginx", nginx_re); ("app", app_re)].

(** ** Dictionaries

    A [dict] keeps its keys in insertion order: assigning to a key that
    is present replaces the value in place, a new key goes to the end. *)

Section Dict.
Context {K V : Type} (eqb : K -> K -> bool).

Definition dict : Type := list (K * V).

Fixpoint dict_get (d : dict) (k : K) : option V :=
  match d with
  | [] => None
  | (k', v) :: d' => if eqb k k' then Some v else dict_get d' k
  end.

(** [k in d] *)
Definition dict_has (d : dict) (k : K) : bool :=
  match dict_get d k with
  | Some _ => true
  | None => false
  end.

(** [d[k]] *)
Definition getitem (d : dict) (k : K) : exc V :=
  match dict_get d k with
  | Some v => Ok v
  | None => Raise KeyError
  end.

(** [d[k] = v] *)
Fixpoint dict_set (d : dict) (k : K) (v : V) : dict :=
  match d with
  | [] => [(k, v)]
  | (k', v') :: d' =>
      if eqb k k' then (k', v) :: d' else (k', v') :: dict_set d' k v
  end.
End Dict.

Arguments dict K V : clear implicits.

(** ** Records *)

Record datetime : Type := mkdatetime {
  year : Z; month : Z; day : Z;
  hour : Z; minute : Z; second : Z; microsecond : Z;
  utcoffset : option Z        (* seconds east of UTC; [None] when naive *)
}.

Inductive value : Type :=
| VStr (s : string)
| VInt (n : Z)
| VTime (d : datetime).

Definition datetime_eq_dec (a b : datetime) : {a = b} + {a <> b}.
Proof.
  decide equality; try apply Z.eq_dec.
  decide equality; apply Z.eq_dec.
Defined.

Definition value_eq_dec (a b : value) : {a = b} + {a <> b}.
Proof.
  decide equality;
    [apply string_dec | apply Z.eq_dec | apply datetime_eq_dec].
Defined.

(** Equality of dictionary keys.  Text and integers compare as in
    Python; timestamps compare field by field. *)
Definition value_eqb (a b : value) : bool :=
  if value_eq_dec a b then true else false.

(** One parsed line: a [dict] from field name to value. *)
Definition record : Type := dict string value.

Definition field (r : record) (k : string) : option value :=
  dict_get String.eqb r k.

Definition has_field (r : record) (k : string) : bool :=
  dict_has String.eqb r k.

(** ** Detection *)

(** [detect_format]: the first pattern of the table, in insertion order,
    that matches at the start of the sample. *)
Fixpoint detect_in (ps : list (string * regex)) (log_sample : string)
    : option string :=
  match ps with
  | [] => None
  | (format_name, pattern) :: ps' =>
      match re_match pattern log_sample with
      | Some _ => Some format_name
      | None => detect_in ps' log_sample
      end
  end.

Definition detect_format (log_sample : string) : option string :=
  detect_in patterns log_sample.

(** ** Extraction *)

(** [parse_request]: method, path and HTTP version of a request text. *)
Definition parse_request (request_string : string)
    : string * string * string :=
  match split_ws request_string with
  | method :: path :: rest =>
      (method, path, match rest with
                     | http_version :: _ => http_version
                     | [] => EmptyString
                     end)
  | _ => (EmptyString, EmptyString, EmptyString)
  end.

Section Extract.
(** [datetime.strptime(date_string, format)]; [None] is [ValueError]. *)
Variable strptime : string -> string -> option datetime.

(** [try: timestamp = strptime(timestamp, fmt) except ValueError: pass] *)
Definition timestamp_or_text (timestamp fmt : string) : value :=
  match strptime timestamp fmt with
  | Some t => VTime t
  | None => VStr timestamp
  end.

Definition parse_apache (line : string) : exc (option record) :=
  match re_match apache_re line with
  | Some groups =>
      match groups with
      | [Some ip; Some timestamp; Some request; Some status; Some bytes_sent] =>
          let '(method, path, http_version) := parse_request request in
          let timestamp := timestamp_or_text timestamp "%d/%b/%Y:%H:%M:%S %z" in
          (* bytes_sent becomes the integer 0 when it is '-' *)
          status_n <- py_int status;;
          bytes_n <- (if String.eqb bytes_sent "-" then Ok 0
                      else py_int bytes_sent);;
          Ok (Some [("ip", VStr ip);
                    ("timestamp", timestamp);
                    ("method", VStr method);
                    ("path", VStr path);
                    ("http_version", VStr http_version);
                    ("status", VInt status_n);
                    ("bytes_sent", VInt bytes_n);
                    ("raw_entry", VStr line)])
      | _ => Raise TypeError
      end
  | None => Ok None
  end.

Definition parse_nginx (line : string) : exc (option record) :=
  match re_match nginx_re line with
  | Some groups =>
      match groups with
      | [Some ip; Some timestamp; Some request; Some status; Some bytes_sent;
         Some referrer; Some user_agent] =>
          let '(method, path, http_version) := parse_request request in
          let timestamp := timestamp_or_text timestamp "%d/%b/%Y:%H:%M:%S %z" in
          status_n <- py_int status;;
          bytes_n <- py_int bytes_sent;;
          Ok (Some [("ip", VStr ip);
                    ("timestamp", timestamp);
                    ("method", VStr method);
                    ("path", VStr path);
                    ("http_version", VStr http_version);
                    ("status", VInt status_n);
                    ("bytes_sent", VInt bytes_n);
                    ("referrer", VStr referrer);
                    ("user_agent", VStr user_agent);
                    ("raw_entry", VStr line)])
      | _ => Raise TypeError
      end
  | None => Ok None
  end.

Definition parse_app_log (line : string) : exc (option record) :=
  match re_match app_re line with
  | Some groups =>
      match groups with
      | [Some timestamp; Some level; Some module; Some message] =>
          let timestamp :=
            match strptime timestamp "%Y-%m-%d %H:%M:%S,%f" with
            | Some t => VTime t
            | None => timestamp_or_text timestamp "%Y-%m-%d %H:%M:%S"
            end in
          Ok (Some [("timestamp", timestamp);
                    ("level", VStr level);
                    ("module", VStr module);
                    ("message", VStr message);
                    ("raw_entry", VStr line)])
      | _ => Raise TypeError
      end
  | None => Ok None
  end.

(** ** The file loop *)

(** The lines a text-mode file yields: universal newlines, every
    terminator read as a line feed, which the line keeps. *)
Fixpoint file_lines_aux (content : string) (cur : string) : list string :=
  match content with
  | EmptyString => if is_empty cur then [] else [cur]
  | String a rest =>
      if Ascii.eqb a LF then (cur ++ str1 LF) :: file_lines_aux rest EmptyString
      else if Ascii.eqb a CR then
        match rest with
        | String b rest' =>
            if Ascii.eqb b LF
            then (cur ++ str1 LF) :: file_lines_aux rest' EmptyString
            else (cur ++ str1 LF) :: file_lines_aux rest EmptyString
        | EmptyString => [cur ++ str1 LF]
        end
      else file_lines_aux rest (cur ++ str1 a)
  end.

Definition file_lines (content : string) : list string :=
  file_lines_aux content EmptyString.

(** [file.readline()] on a freshly opened file. *)
Definition readline (content : string) : string :=
  match file_lines content with
  | l :: _ => l
  | [] => EmptyString
  end.

(** The [if / elif] dispatch on [log_format]; [entry] stays [None] for
    any other name. *)
Definition parse_entry (log_format line : string) : exc (option record) :=
  if String.eqb log_format "apache" then parse_apache line
  else if String.eqb log_format "nginx" then parse_nginx line
  else if String.eqb log_format "app" then parse_app_log line
  else Ok None.

(** [if max_lines and line_count >= max_lines] *)
Definition cap_reached (max_lines : option Z) (line_count : Z) : bool :=
  match max_lines with
  | Some m => (negb (m =? 0) && (m <=? line_count))%bool
  | None => false
  end.

(** [if entry: parsed_entries.append(entry)]: [None] and the empty
    [dict] are falsy. *)
Definition append_entry (parsed_entries : list record)
    (entry : option record) : list record :=
  match entry with
  | Some (f :: e) => (parsed_entries ++ [f :: e])%list
  | _ => parsed_entries
  end.

Fixpoint parse_loop (log_format : string) (max_lines : option Z)
    (lines : list string) (line_count : Z) (parsed_entries : list record)
    : exc (list record) :=
  match lines with
  | [] => Ok parsed_entries
  | raw :: rest =>
      let line := strip raw in
      if is_empty line
      then parse_loop log_format max_lines rest line_count parsed_entries
      else
        entry <- parse_entry log_format line;;
        let parsed_entries := append_entry parsed_entries entry in
        let line_count := line_count + 1 in
        if cap_reached max_lines line_count then Ok parsed_entries
        else parse_loop log_format max_lines rest line_count parsed_entries
  end.

(** [if not log_format]: [None] and the empty text are both falsy. *)
Definition format_given (log_format : option string) : option string :=
  match log_format with
  | Some f => if is_empty f then None else Some f
  | None => None
  end.

(** The format the loop runs with: the one supplied, else the one
    detected on the first line read, else [ValueError]. *)
Definition choose_format (content : string) (log_format : option string)
    : exc string :=
  match format_given log_format with
  | Some f => Ok f
  | None =>
      let first_line := strip (readline content) in
      match detect_format first_line with
      | Some f => Ok f
      | None => Raise ValueError
      end
  end.

(** [parse_log(file_path, log_format, max_lines)], on the decoded text
    [content] of the file at [file_path]. *)
Definition parse_log (content : string) (log_format : option string)
    (max_lines : option Z) : exc (list record) :=
  log_format <- choose_format content log_format;;
  parse_loop log_format max_lines (file_lines content) 0 [].
End Extract.

(** ** Analysis *)

Definition counts : Type := dict value Z.

(** [c[k] = c.get(k, 0) + 1] *)
Definition incr (c : counts) (k : value) : counts :=
  dict_set value_eqb c k
    (match dict_get value_eqb c k with
     | Some n => n
     | None => 0
     end + 1).

(** [for entry in parsed_entries: k = entry[name]; c[k] = c.get(k, 0) + 1] *)
Fixpoint count_by (name : string) (parsed_entries : list record) (c : counts)
    : exc counts :=
  match parsed_entries with
  | [] => Ok c
  | entry :: rest =>
      k <- getitem String.eqb entry name;;
      count_by name rest (incr c k)
  end.

(** Stable insertion by descending count: [x], which came before every
    item of [l], goes in front of the first item that does not beat it. *)
Fixpoint insert_desc (x : value * Z) (l : list (value * Z)) : list (value * Z) :=
  match l with
  | [] => [x]
  | y :: l' => if snd x <? snd y then y :: insert_desc x l' else x :: l
  end.

(** [sorted(items, key=lambda x: x[1], reverse=True)]: the stable sort by
    descending count (items of equal count keep their order). *)
Fixpoint sorted_desc (items : list (value * Z)) : list (value * Z) :=
  match items with
  | [] => []
  | x :: l => insert_desc x (sorted_desc l)
  end.

(** [sorted(c.items(), key=lambda x: x[1], reverse=True)[:10]] *)
Definition top10 (c : counts) : list (value * Z) := firstn 10 (sorted_desc c).

Inductive metric : Type :=
| Ranking (l : list (value * Z))
| Counts (c : counts)
| Message (s : string).

Definition analysis : Type := dict string metric.

Definition put (a : analysis) (k : string) (m : metric) : analysis :=
  dict_set String.eqb a k m.

Definition analyze (parsed_entries : list record) : exc analysis :=
  match parsed_entries with
  | [] => Ok [("error", Message "No entries to analyze")]
  | first :: _ =>
      a <-
        (if has_field first "ip" then
           ip_counts <- count_by "ip" parsed_entries [];;
           let a := put [] "top_ips" (Ranking (top10 ip_counts)) in
           status_counts <- count_by "status" parsed_entries [];;
           let a := put a "status_codes" (Counts status_counts) in
           if has_field first "path" then
             path_counts <- count_by "path" parsed_entries [];;
             Ok (put a "top_paths" (Ranking (top10 path_counts)))
           else Ok a
         else Ok []);;
      if has_field first "level" then
        level_counts <- count_by "level" parsed_entries [];;
        let a := put a "log_levels" (Counts level_counts) in
        if has_field first "module" then
          module_counts <- count_by "module" parsed_entries [];;
          Ok (put a "top_modules" (Ranking (top10 module_counts)))
        else Ok a
      else Ok a
  end.

(** ** A reference [strptime]

    The two-argument parser restricted to the three layouts the program
    uses, on stamps written in the usual zero-padded form with English
    month names; every other input is [None].  It serves to run the
    model; the statements below hold for any [strptime]. *)

Fixpoint take_digits (n : nat) (s : string) : option (Z * string) :=
  match n with
  | O => Some (0, s)
  | S n' =>
      match take_digits n' s with
      | Some (v, String a rest) =>
          if is_digit a then Some (10 * v + digit_val a, rest) else None
      | _ => None
      end
  end.

Definition expect (a : ascii) (s : string) : option string :=
  match s with
  | String b rest => if Ascii.eqb a b then Some rest else None
  | EmptyString => None
  end.

Definition month_names : list (string * Z) :=
  [("Jan", 1); ("Feb", 2); ("Mar", 3); ("Apr", 4); ("May", 5); ("Jun", 6);
   ("Jul", 7); ("Aug", 8); ("Sep", 9); ("Oct", 10); ("Nov", 11); ("Dec", 12)].

Definition take_month (s : string) : option (Z * string) :=
  match s with
  | String a (String b (String c rest)) =>
      match dict_get String.eqb month_names (String a (String b (str1 c))) with
      | Some m => Some (m, rest)
      | None => None
      end
  | _ => None
  end.

Definition leap (y : Z) : bool :=
  ((y mod 4 =? 0) && (negb (y mod 100 =? 0) || (y mod 400 =? 0)))%bool.

Definition days_in (y m : Z) : Z :=
  if m =? 2 then (if leap y then 29 else 28)
  else if ((m =? 4) || (m =? 6) || (m =? 9) || (m =? 11))%bool then 30
  else 31.

Definition valid_fields (y m d hh mm ss : Z) : bool :=
  ((1 <=? y) && (1 <=? m) && (m <=? 12) && (1 <=? d) && (d <=? days_in y m)
   && (hh <=? 23) && (mm <=? 59) && (ss <=? 59))%bool.

Definition opt_bind {A B : Type} (o : option A) (f : A -> option B) : option B :=
  match o with
  | Some a => f a
  | None => None
  end.

Notation "' p <~ o ;; k" := (opt_bind o (fun p => k))
  (at level 61, p pattern, o at next level, right associativity).

(** [HH:MM:SS] *)
Definition take_clock (s : string) : option (Z * Z * Z * string) :=
  ' (hh, s) <~ take_digits 2 s ;;
  ' s <~ expect ":" s ;;
  ' (mm, s) <~ take_digits 2 s ;;
  ' s <~ expect ":" s ;;
  ' (ss, s) <~ take_digits 2 s ;;
  Some (hh, mm, ss, s).

(** [%d/%b/%Y:%H:%M:%S %z] with a [+HHMM] or [-HHMM] offset. *)
Definition strptime_clf (s : string) : option datetime :=
  ' (d, s) <~ take_digits 2 s ;;
  ' s <~ expect "/" s ;;
  ' (m, s) <~ take_month s ;;
  ' s <~ expect "/" s ;;
  ' (y, s) <~ take_digits 4 s ;;
  ' s <~ expect ":" s ;;
  ' (hh, mm, ss, s) <~ take_clock s ;;
  ' s <~ expect " " s ;;
  ' (sign, s) <~ match s with
                 | String "+" s' => Some (1, s')
                 | String "-" s' => Some (-1, s')
                 | _ => None
                 end ;;
  ' (oh, s) <~ take_digits 2 s ;;
  ' (om, s) <~ take_digits 2 s ;;
  if (is_empty s && valid_fields y m d hh mm ss
      && (oh <=? 23) && (om <=? 59))%bool
  then Some (mkdatetime y m d hh mm ss 0 (Some (sign * (oh * 3600 + om * 60))))
  else None.

(** [%Y-%m-%d %H:%M:%S], then [,%f] with six digits when [frac] is set. *)
Definition strptime_iso (frac : bool) (s : string) : option datetime :=
  ' (y, s) <~ take_digits 4 s ;;
  ' s <~ expect "-" s ;;
  ' (m, s) <~ take_digits 2 s ;;
  ' s <~ expect "-" s ;;
  ' (d, s) <~ take_digits 2 s ;;
  ' s <~ expect " " s ;;
  ' (hh, mm, ss, s) <~ take_clock s ;;
  ' (us, s) <~ (if frac
                then ' s <~ expect "," s ;; take_digits 6 s
                else Some (0, s)) ;;
  if (is_empty s && valid_fields y m d hh mm ss)%bool
  then Some (mkdatetime y m d hh mm ss us None)
  else None.

Definition strptime_ref (date_string format : string) : option datetime :=
  if String.eqb format "%d/%b/%Y:%H:%M:%S %z" then strptime_clf date_string
  else if String.eqb format "%Y-%m-%d %H:%M:%S,%f" then strptime_iso true date_string
  else if String.eqb format "%Y-%m-%d %H:%M:%S" then strptime_iso false date_string
  else None.

(** * Specification-side notions

    What the statements below are phrased in: shapes of lines, what a
    match says about the text, what the loop and the counting loops have
    to deliver. *)

(** ** Text *)

(** The head of a string, if any, is outside the class [f]. *)
Definition head_not (f : ascii -> bool) (s : string) : bool :=
  match s with
  | EmptyString => true
  | String a _ => negb (f a)
  end.

(** [P] holds of [s] and of every suffix of [s]. *)
Fixpoint all_suffixes (P : string -> Prop) (s : string) : Prop :=
  P s /\ match s with
         | EmptyString => True
         | String _ s' => all_suffixes P s'
         end.

Definition not_chars (x y : ascii) (a : ascii) : bool :=
  (negb (Ascii.eqb a x) && negb (Ascii.eqb a y))%bool.

(** A text without newline and without the character [x]. *)
Definition free_of (x : ascii) (s : string) : bool :=
  str_forall (not_chars LF x) s.

Fixpoint count_char (x : ascii) (s : string) : nat :=
  match s with
  | EmptyString => O
  | String a s' => ((if Ascii.eqb a x then 1 else 0) + count_char x s')%nat
  end.

(** A non-empty run of digits. *)
Definition number_text (s : string) : bool :=
  (str_forall is_digit s && negb (is_empty s))%bool.

Definition digit_or_dash (a : ascii) : bool :=
  (is_digit a || Ascii.eqb a "-")%bool.

(** ** Well-formed request lines *)

(** One to three digits. *)
Definition octet (d : string) : bool :=
  (str_forall is_digit d && Nat.leb 1 (String.length d)
   && Nat.leb (String.length d) 3)%bool.

Definition dotted (d1 d2 d3 d4 : string) : string :=
  d1 ++ "." ++ d2 ++ "." ++ d3 ++ "." ++ d4.

(** A line of the basic format up to the status, followed by [rest]. *)
Definition clf_line (ip ts req st rest : string) : string :=
  ip ++ " - - [" ++ ts ++ "] " ++ quoted req ++ " " ++ st ++ " " ++ rest.

(** A text without newline: what [.] can run over. *)
Definition no_newline (s : string) : bool := str_forall (in_class CAny) s.

(** A line of the extended format, followed by [rest]:
    [ip - user [ts] "req" st b "ref" "ua"]. *)
Definition combined_line (ip user ts req st b ref ua rest : string) : string :=
  ip ++ " - " ++ user ++ " [" ++ ts ++ "] " ++ quoted req ++ " " ++ st ++ " "
  ++ b ++ " " ++ quoted ref ++ " " ++ quoted ua ++ rest.

(** What follows the quoted request, and what follows the timestamp's
    closing bracket, in [clf_line]. *)
Definition after_request (st rest : string) : string :=
  String " " (st ++ String " " rest).

Definition after_stamp (req st rest : string) : string :=
  String " " (String DQ (req ++ String DQ (after_request st rest))).

(** The pieces of [apache_re] from given points on. *)
Definition bytes_re : regex := Grp 5 (Alt (plus CDigit) (lit "-")).

Definition request_close : list regex :=
  [Atom (CLit DQ); lit " "; Grp 4 (plus CDigit); lit " "; bytes_re].

Definition stamp_close : list regex :=
  lit "] " :: Atom (CLit DQ) :: Grp 3 (star_lazy CAny) :: request_close.

(** The groups bound once the first [n] groups of [clf_line] are read. *)
Definition caps_upto (n : nat) (ip ts req st : string) : captures :=
  skipn (4 - n) [(4%nat, st); (3%nat, req); (2%nat, ts); (1%nat, ip)].

(** ** What a match says about the text

    [matches r s c s' c']: [r] can consume a prefix of [s], leaving [s'],
    and turn the groups [c] into [c'].  Priorities play no part here. *)

Inductive matches : regex -> string -> captures -> string -> captures -> Prop :=
| M_eps s c : matches Eps s c s c
| M_atom cl a s c : in_class cl a = true -> matches (Atom cl) (String a s) c s c
| M_rep cl lo hi g p s c :
    str_forall (in_class cl) p = true ->
    (lo <= String.length p)%nat ->
    match hi with Some h => (String.length p <= h)%nat | None => True end ->
    matches (Rep cl lo hi g) (p ++ s) c s c
| M_cat r1 r2 s c s1 c1 s2 c2 :
    matches r1 s c s1 c1 -> matches r2 s1 c1 s2 c2 ->
    matches (Cat r1 r2) s c s2 c2
| M_alt_l r1 r2 s c s' c' : matches r1 s c s' c' -> matches (Alt r1 r2) s c s' c'
| M_alt_r r1 r2 s c s' c' : matches r2 s c s' c' -> matches (Alt r1 r2) s c s' c'
| M_grp i r s c s' c' :
    matches r s c s' c' -> matches (Grp i r) s c s' ((i, consumed s s') :: c').

(** ** Records as the extractors build them *)

Definition clf_layout : string := "%d/%b/%Y:%H:%M:%S %z".

(** The timestamp a list of layouts gives, tried in order; the text itself
    when none of them parses it. *)
Fixpoint first_layout (strptime : string -> string -> option datetime)
    (timestamp : string) (layouts : list string) : value :=
  match layouts with
  | [] => VStr timestamp
  | f :: fs =>
      match strptime timestamp f with
      | Some t => VTime t
      | None => first_layout strptime timestamp fs
      end
  end.

(** The layouts of a format, primary first. *)
Definition layouts_of (log_format : string) : list string :=
  if String.eqb log_format "app"
  then ["%Y-%m-%d %H:%M:%S,%f"; "%Y-%m-%d %H:%M:%S"]
  else [clf_layout].

(** The position of the timestamp among the groups of a pattern. *)
Definition stamp_group (log_format : string) : nat :=
  if String.eqb log_format "app" then 0%nat else 1%nat.

Definition bytes_value (b : string) : Z :=
  if String.eqb b "-" then 0 else digits_val 0 b.

Definition request_entry (stamp : value) (ip request status : string)
    (bytes : Z) (extra : list (string * value)) (line : string) : record :=
  let '(method, path, http_version) := parse_request request in
  ([("ip", VStr ip); ("timestamp", stamp); ("method", VStr method);
    ("path", VStr path); ("http_version", VStr http_version);
    ("status", VInt (digits_val 0 status)); ("bytes_sent", VInt bytes)]
   ++ extra ++ [("raw_entry", VStr line)])%list.

Definition app_entry (stamp : value) (level module message line : string)
    : record :=
  [("timestamp", stamp); ("level", VStr level); ("module", VStr module);
   ("message", VStr message); ("raw_entry", VStr line)].

(** ** Numbers too long for [int] *)

(** A text of at most [int_max_str_digits] characters. *)
Definition fits (s : string) : bool :=
  Z.of_nat (String.length s) <=? int_max_str_digits.

(** The groups of a match that the extractor of a format hands to [int]:
    the status and the bytes-sent count, the latter unless it is the
    marker [-] of the basic format. *)
Definition numbers_of (log_format : string) (groups : list (option string))
    : list string :=
  match groups with
  | _ :: _ :: _ :: Some status :: Some bytes_sent :: _ =>
      if (String.eqb log_format "apache" && String.eqb bytes_sent "-")%bool
      then [status]
      else [status; bytes_sent]
  | _ => []
  end.

(** A line that matches the pattern of its format with a number of more
    digits than [int] converts. *)
Definition oversized (log_format line : string) : bool :=
  match dict_get String.eqb patterns log_format with
  | Some re =>
      match re_match re line with
      | Some groups => negb (forallb fits (numbers_of log_format groups))
      | None => false
      end
  | None => false
  end.

(** ** The file pass *)

(** The lines of a file that are not blank, stripped, in order. *)
Definition nonblank (lines : list string) : list string :=
  filter (fun l => negb (is_empty l)) (map strip lines).

(** The first non-blank line of a file, stripped. *)
Definition first_nonblank_line (content : string) : option string :=
  hd_error (nonblank (file_lines content)).

(** The non-blank lines the loop works on, from a given count on. *)
Definition processed (max_lines : option Z) (line_count : Z) (ls : list string)
    : list string :=
  match max_lines with
  | Some m =>
      if m =? 0 then ls else firstn (Z.to_nat (Z.max 1 (m - line_count))) ls
  | None => ls
  end.

(** The first [k] non-blank lines of a file, stripped. *)
Definition capped (k : Z) (content : string) : list string :=
  firstn (Z.to_nat k) (nonblank (file_lines content)).

(** The record a line yields, if any. *)
Definition extract (strptime : string -> string -> option datetime)
    (log_format line : string) : option record :=
  match parse_entry strptime log_format line with
  | Ok (Some r) => Some r
  | _ => None
  end.

Definition is_some {A : Type} (o : option A) : bool :=
  match o with
  | Some _ => true
  | None => false
  end.

(** The records of the lines [ls], in order. *)
Fixpoint records_of (strptime : string -> string -> option datetime)
    (log_format : string) (ls : list string) : list record :=
  match ls with
  | [] => []
  | l :: ls' =>
      match extract strptime log_format l with
      | Some r => r :: records_of strptime log_format ls'
      | None => records_of strptime log_format ls'
      end
  end.

(** ** Rankings *)

(** The values of a field along a sequence of records. *)
Definition column (name : string) (entries : list record)
    : list (option value) :=
  map (fun e => field e name) entries.

(** The position at which [k] first appears in [ks]. *)
Fixpoint first_index (k : value) (ks : list value) : nat :=
  match ks with
  | [] => O
  | x :: r => if value_eqb k x then O else S (first_index k r)
  end.

Definition occurrences (k : value) (ks : list value) : Z :=
  Z.of_nat (count_occ value_eq_dec ks k).

Definition seen_before (ks : list value) (x y : value * Z) : Prop :=
  (first_index (fst x) ks < first_index (fst y) ks)%nat.

(** [x] ranks before [y]: a larger count, or the same count and an
    earlier first appearance. *)
Definition ranks_before (ks : list value) (x y : value * Z) : Prop :=
  snd y < snd x \/ (snd x = snd y /\ seen_before ks x y).

(** The distinct keys of [ks], in order of first appearance. *)
Definition dedup (ks : list value) : list value :=
  rev (nodup value_eq_dec (rev ks)).

(** The counting loop on the keys [ks]. *)
Definition tally (ks : list value) : counts := fold_left incr ks [].

(** What the counting loop has built after the keys [p]. *)
Definition tallied (p : list value) (c : counts) : Prop :=
  map fst c = dedup p /\ forall k n, In (k, n) c -> n = occurrences k p.

(** A ranking of the keys [ks]: at most ten entries, in rank order, each
    key with its number of occurrences, and no key left out that belongs
    above a listed one. *)
Definition is_ranking (ks : list value) (l : list (value * Z)) : Prop :=
  (length l <= 10)%nat /\
  StronglySorted (ranks_before ks) l /\
  (forall k n, In (k, n) l -> In k ks /\ n = occurrences k ks) /\
  (forall k, In k ks ->
     In (k, occurrences k ks) l \/
     (length l = 10%nat /\ forall x, In x l -> occurrences k ks <= snd x)).

(** The ranked dimensions of the analysis and all its dimensions, each
    with the field it is computed from. *)
Definition ranked_dimensions : list (string * string) :=
  [("top_ips", "ip"); ("top_paths", "path"); ("top_modules", "module")].

Definition dimension_sources : list (string * string) :=
  [("top_ips", "ip"); ("status_codes", "status"); ("top_paths", "path");
   ("log_levels", "level"); ("top_modules", "module")].

(** The fields the analyzer reads in every record, as the first record's
    shape decides. *)
Definition selected_fields (first : record) : list string :=
  ((if has_field first "ip"
    then "ip" :: "status" :: (if has_field first "path" then ["path"] else [])
    else []) ++
   (if has_field first "level"
    then "level" :: (if has_field first "module" then ["module"] else [])
    else []))%list.

(** ** Tokens and gaps *)






(** ** The shape of records *)












(** ** Sample inputs *)

Definition sample_stamp : string := "10/Oct/2000:13:55:36 -0700".

Definition sample_request : string := "GET /a HTTP/1.0".

(** A basic-format line with the given text in the bytes-sent position. *)
Definition basic_with (bytes_sent : string) : string :=
  "1.2.3.4 - - [" ++ sample_stamp ++ "] " ++ quoted sample_request
  ++ " 200 " ++ bytes_sent.

Definition basic_dash_line : string := basic_with "-".

(** An extended-format line with the given text in the bytes-sent
    position. *)
Definition extended_with (bytes_sent : string) : string :=
  "1.2.3.4 - - [" ++ sample_stamp ++ "] " ++ quoted sample_request
  ++ " 200 " ++ bytes_sent ++ " " ++ quoted "http://ref" ++ " "
  ++ quoted "Mozilla".

Definition extended_line : string := extended_with "2326".

Definition app_line : string := "[2024-01-01 00:00:00] [INFO] [db] started".

(** An application line whose timestamp fits neither layout. *)
Definition odd_stamp_line : string := "[yesterday noon] [WARN] [db] slow query".

(** A file whose first line is blank and whose second is [app_line]. *)
Definition blank_first_file : string := str1 LF ++ app_line ++ str1 LF.

(** A file whose only line is [app_line] between spaces. *)
Definition padded_file : string := "  " ++ app_line ++ "  " ++ str1 LF.

(** Three basic-format lines, a blank line after the first. *)
Definition basic_file : string :=
  basic_dash_line ++ str1 LF ++ str1 LF ++ basic_dash_line ++ str1 LF
  ++ basic_dash_line ++ str1 LF.

(** A run of [n] digits. *)
Fixpoint ones (n : nat) : string :=
  match n with
  | O => EmptyString
  | S n' => String "1" (ones n')
  end.

(** A number of one digit more than [int] converts. *)
Definition long_number : string := ones (S (Z.to_nat int_max_str_digits)).

(** A basic-format line whose timestamp fits no layout and whose
    bytes-sent count is [long_number]. *)
Definition oversized_line : string :=
  clf_line "1.2.3.4" "yesterday noon" sample_request "200" long_number.

(** Three basic-format lines, the second of them oversized. *)
Definition oversized_file : string :=
  basic_dash_line ++ str1 LF ++ oversized_line ++ str1 LF
  ++ basic_dash_line ++ str1 LF.

(** A record of the request shape. *)
Definition web_entry : record :=
  [("ip", VStr "1.2.3.4"); ("timestamp", VStr "-"); ("method", VStr "GET");
   ("path", VStr "/a"); ("http_version", VStr "HTTP/1.0");
   ("status", VInt 200); ("bytes_sent", VInt 0); ("raw_entry", VStr "-")].

(** Three addresses with equal counts, first seen in the order A, B, C. *)
Definition tie_entries : list record :=
  map (fun ip => [("ip", VStr ip); ("status", VInt 200)])
      ["A"; "B"; "C"; "B"; "A"; "C"].

(** * Properties *)

(** ** Strings *)

Lemma str_app_assoc (a b c : string) : (a ++ b) ++ c = a ++ (b ++ c).
Proof. induction a as [|x a IH]; simpl; [reflexivity | now rewrite IH]. Qed.

Lemma str_app_nil_r (s : string) : s ++ EmptyString = s.
Proof. induction s as [|a s IH]; simpl; [reflexivity | now rewrite IH]. Qed.

Lemma str_length_app (a b : string) :
  String.length (a ++ b) = (String.length a + String.length b)%nat.
Proof. induction a as [|x a IH]; simpl; [reflexivity | now rewrite IH]. Qed.

Lemma substring_prefix (p t : string) : substring 0 (String.length p) (p ++ t) = p.
Proof.
  induction p as [|x p IH]; simpl.
  - destruct t; reflexivity.
  - now rewrite IH.
Qed.

Lemma consumed_app (p t : string) : consumed (p ++ t) t = p.
Proof.
  unfold consumed. rewrite str_length_app.
  replace (String.length p + String.length t - String.length t)%nat
    with (String.length p) by lia.
  apply substring_prefix.
Qed.

Lemma eqb_other (f : ascii -> bool) a x :
  f a = true -> f x = false -> Ascii.eqb a x = false.
Proof.
  intros Ha Hx. destruct (Ascii.eqb_spec a x) as [->|]; [congruence | reflexivity].
Qed.

(** ** The matcher on runs and literals *)

(** Greedy repetition over a run of the class: when the continuation
    cannot start on a character of the class, the whole run is taken. *)
Lemma rep_greedy_run {A} c (k : string -> option A) p : forall lo hi t,
  str_forall (in_class c) p = true ->
  (lo <= String.length p)%nat ->
  match hi with Some h => (String.length p <= h)%nat | None => True end ->
  head_not (in_class c) t = true ->
  (forall a u, in_class c a = true -> k (String a u) = None) ->
  rep c lo hi true (p ++ t) k = k t.
Proof.
  induction p as [|a p IH]; intros lo hi t Hp Hlo Hhi Ht Hk; simpl in *.
  - assert (lo = O) by lia. subst lo.
    destruct t as [|b t]; simpl; [reflexivity|].
    simpl in Ht. apply negb_true_iff in Ht. rewrite Ht. reflexivity.
  - apply andb_true_iff in Hp. destruct Hp as [Ha Hp]. rewrite Ha.
    assert (Hc : can_more hi = true)
      by (destruct hi as [[|h]|]; simpl; [lia | reflexivity | reflexivity]).
    rewrite Hc. simpl.
    assert (E : rep c (Nat.pred lo) (dec_hi hi) true (p ++ t) k = k t).
    { apply IH; try assumption; [lia|].
      destruct hi as [h|]; simpl; [lia | exact I]. }
    destruct lo as [|lo]; simpl in *; rewrite E; [|reflexivity].
    destruct (k t); [reflexivity|]. now apply Hk.
Qed.

(** Lazy repetition skips the characters on which the continuation
    cannot start. *)
Lemma rep_lazy_skip {A} c (stop : ascii -> bool) (k : string -> option A) p t :
  str_forall (fun a => in_class c a && negb (stop a))%bool p = true ->
  (forall a u, stop a = false -> k (String a u) = None) ->
  rep c 0 None false (p ++ t) k = rep c 0 None false t k.
Proof.
  intros Hp Hk. induction p as [|a p IH]; simpl in *; [reflexivity|].
  apply andb_true_iff in Hp. destruct Hp as [Ha Hp].
  apply andb_true_iff in Ha. destruct Ha as [Ha Hs].
  apply negb_true_iff in Hs.
  rewrite (Hk a _ Hs), Ha. simpl. now apply IH.
Qed.

Lemma rep_lazy_none {A} c (k : string -> option A) s :
  all_suffixes (fun u => k u = None) s -> rep c 0 None false s k = None.
Proof.
  induction s as [|a s IH]; simpl; intros [H0 H]; rewrite H0; [reflexivity|].
  destruct (in_class c a); simpl; [now apply IH | reflexivity].
Qed.

Lemma all_suffixes_impl (P Q : string -> Prop) s :
  (forall u, P u -> Q u) -> all_suffixes P s -> all_suffixes Q s.
Proof.
  intros H. induction s as [|a s IH]; simpl; intros [H0 H1]; split; auto.
Qed.

Lemma rmatch_lit {A} l t caps (k : string -> captures -> option A) :
  rmatch (lit l) (l ++ t) caps k = k t caps.
Proof.
  induction l as [|a l IH]; simpl; [reflexivity|].
  now rewrite Ascii.eqb_refl.
Qed.

Lemma rmatch_lit_head {A} x l a u caps (k : string -> captures -> option A) :
  Ascii.eqb a x = false -> rmatch (lit (String x l)) (String a u) caps k = None.
Proof. intros H. simpl. now rewrite H. Qed.

Lemma rep_greedy_hit {A} c (k : string -> option A) x p : forall lo hi t,
  str_forall (in_class c) p = true ->
  (lo <= String.length p)%nat ->
  match hi with Some h => (String.length p <= h)%nat | None => True end ->
  head_not (in_class c) t = true ->
  k t = Some x ->
  rep c lo hi true (p ++ t) k = Some x.
Proof.
  induction p as [|a p IH]; intros lo hi t Hp Hlo Hhi Ht Hk; simpl in *.
  - assert (lo = O) by lia. subst lo.
    destruct t as [|b t]; simpl; [assumption|].
    simpl in Ht. apply negb_true_iff in Ht. now rewrite Ht.
  - apply andb_true_iff in Hp. destruct Hp as [Ha Hp]. rewrite Ha.
    assert (Hc : can_more hi = true)
      by (destruct hi as [[|h]|]; simpl; [lia | reflexivity | reflexivity]).
    rewrite Hc. simpl.
    assert (E : rep c (Nat.pred lo) (dec_hi hi) true (p ++ t) k = Some x).
    { apply IH; try assumption; [lia|].
      destruct hi as [h|]; simpl; [lia | exact I]. }
    destruct lo as [|lo]; simpl in *; now rewrite E.
Qed.

Lemma rmatch_grp_digits {A} i lo hi p t caps (k : string -> captures -> option A) :
  str_forall is_digit p = true ->
  (lo <= String.length p)%nat ->
  match hi with Some h => (String.length p <= h)%nat | None => True end ->
  head_not is_digit t = true ->
  (forall a u caps', is_digit a = true -> k (String a u) caps' = None) ->
  rmatch (Grp i (Rep CDigit lo hi true)) (p ++ t) caps k = k t ((i, p) :: caps).
Proof.
  intros Hp Hlo Hhi Ht Hk. cbn [rmatch].
  rewrite (rep_greedy_run CDigit _ p lo hi t); try assumption.
  - now rewrite consumed_app.
  - intros a u Ha. now apply Hk.
Qed.

Lemma rmatch_grp_lazy {A} i stop p t caps (k : string -> captures -> option A) :
  str_forall (not_chars LF stop) p = true ->
  Ascii.eqb stop LF = false ->
  (forall a u caps', Ascii.eqb a stop = false -> k (String a u) caps' = None) ->
  rmatch (Grp i (star_lazy CAny)) (p ++ String stop t) caps k =
  match k (String stop t) ((i, p) :: caps) with
  | Some x => Some x
  | None => rep CAny 0 None false t
              (fun s' => k s' ((i, consumed (p ++ String stop t) s') :: caps))
  end.
Proof.
  intros Hp Hs Hk. unfold star_lazy. cbn [rmatch].
  rewrite (rep_lazy_skip CAny (fun a => Ascii.eqb a stop)).
  - cbn [rep]. rewrite consumed_app. cbn [in_class]. rewrite Hs. reflexivity.
  - clear - Hp. induction p as [|a p IH]; simpl in *; [reflexivity|].
    unfold not_chars in Hp at 1.
    apply andb_true_iff in Hp. destruct Hp as [Ha Hp].
    rewrite Ha. now apply IH.
  - intros a u Ha. now apply Hk.
Qed.

Lemma count_char_app x a b :
  count_char x (a ++ b) = (count_char x a + count_char x b)%nat.
Proof. induction a as [|y a IH]; simpl; [reflexivity | rewrite IH; lia]. Qed.

Lemma count_char_none x (f : ascii -> bool) s :
  f x = false -> str_forall f s = true -> count_char x s = O.
Proof.
  intros Hx. induction s as [|a s IH]; simpl; [reflexivity|].
  intros H. apply andb_true_iff in H. destruct H as [Ha Hs].
  rewrite (eqb_other f a x Ha Hx). now rewrite IH.
Qed.

Lemma lazy_needs_char {A} x s (k : string -> option A) :
  count_char x s = O ->
  (forall a u, Ascii.eqb a x = false -> k (String a u) = None) ->
  k EmptyString = None ->
  rep CAny 0 None false s k = None.
Proof.
  intros Hc Hk He. apply rep_lazy_none.
  induction s as [|a s IH]; simpl in *; [auto|].
  destruct (Ascii.eqb a x) eqn:E; [discriminate|].
  split; [now apply Hk | now apply IH].
Qed.

Lemma number_text_length s : number_text s = true -> (1 <= String.length s)%nat.
Proof.
  unfold number_text. destruct s; simpl; [discriminate | lia].
Qed.

Lemma number_text_digits s : number_text s = true -> str_forall is_digit s = true.
Proof. unfold number_text. intros H. now apply andb_true_iff in H. Qed.

Lemma octet_inv d :
  octet d = true ->
  str_forall is_digit d = true /\ (1 <= String.length d <= 3)%nat.
Proof.
  unfold octet. intros H.
  apply andb_true_iff in H. destruct H as [H H3].
  apply andb_true_iff in H. destruct H as [H H1].
  apply Nat.leb_le in H1, H3. auto.
Qed.

Lemma rmatch_ip {A} d1 d2 d3 d4 t caps (k : string -> captures -> option A) :
  octet d1 = true -> octet d2 = true -> octet d3 = true -> octet d4 = true ->
  head_not is_digit t = true ->
  (forall a u caps', is_digit a = true -> k (String a u) caps' = None) ->
  rmatch (Grp 1 dotted_quad) (dotted d1 d2 d3 d4 ++ t) caps k =
  k t ((1%nat, dotted d1 d2 d3 d4) :: caps).
Proof.
  intros O1 O2 O3 O4 Ht Hk.
  apply octet_inv in O1, O2, O3, O4.
  destruct O1 as [D1 L1], O2 as [D2 L2], O3 as [D3 L3], O4 as [D4 L4].
  assert (dot : forall a, is_digit a = true -> Ascii.eqb a "." = false)
    by (intros a Ha; now apply (eqb_other is_digit)).
  set (ip := dotted d1 d2 d3 d4).
  assert (E : ip ++ t =
              d1 ++ String "." (d2 ++ String "." (d3 ++ String "." (d4 ++ t)))).
  { unfold ip, dotted. repeat (rewrite str_app_assoc; simpl). reflexivity. }
  unfold dotted_quad, upto3. cbn [rmatch cat lit].
  rewrite E at 1.
  rewrite (rep_greedy_run CDigit _ d1); try assumption; try reflexivity; try lia;
    [|intros a u Ha; cbn [in_class] in *; now rewrite (dot a Ha)].
  cbn [in_class]. rewrite Ascii.eqb_refl.
  rewrite (rep_greedy_run CDigit _ d2); try assumption; try reflexivity; try lia;
    [|intros a u Ha; cbn [in_class] in *; now rewrite (dot a Ha)].
  cbn [in_class]. rewrite Ascii.eqb_refl.
  rewrite (rep_greedy_run CDigit _ d3); try assumption; try reflexivity; try lia;
    [|intros a u Ha; cbn [in_class] in *; now rewrite (dot a Ha)].
  cbn [in_class]. rewrite Ascii.eqb_refl.
  rewrite (rep_greedy_run CDigit _ d4); try assumption; try reflexivity; try lia;
    [|intros a u Ha; now apply Hk].
  now rewrite consumed_app.
Qed.

(** ** The basic pattern on a well-formed line *)

Lemma rmatch_cat_cons {A} r rs s caps (k : string -> captures -> option A) :
  rmatch (cat (r :: rs)) s caps k =
  rmatch r s caps (fun s' caps' => rmatch (cat rs) s' caps' k).
Proof. reflexivity. Qed.

Lemma rmatch_lit1 {A} a t caps (k : string -> captures -> option A) :
  rmatch (lit (String a EmptyString)) (String a t) caps k = k t caps.
Proof. simpl. now rewrite Ascii.eqb_refl. Qed.

Lemma rmatch_lit2 {A} a b t caps (k : string -> captures -> option A) :
  rmatch (lit (String a (String b EmptyString))) (String a (String b t)) caps k
  = k t caps.
Proof. simpl. now rewrite !Ascii.eqb_refl. Qed.

Lemma rmatch_dq {A} t caps (k : string -> captures -> option A) :
  rmatch (Atom (CLit DQ)) (String DQ t) caps k = k t caps.
Proof. reflexivity. Qed.

Lemma rmatch_atom_head {A} x a u caps (k : string -> captures -> option A) :
  Ascii.eqb a x = false -> rmatch (Atom (CLit x)) (String a u) caps k = None.
Proof. intros H. simpl. now rewrite H. Qed.

Lemma rmatch_bytes_dash {A} tail caps (k : string -> captures -> option A) :
  rmatch bytes_re (String "-" tail) caps k = k tail ((5%nat, "-") :: caps).
Proof.
  unfold bytes_re, plus. cbn [rmatch lit rep]. cbn [in_class].
  replace (is_digit "-") with false by reflexivity.
  cbn [andb Ascii.eqb Bool.eqb]. 
  change (String "-" tail) with ("-" ++ tail) at 1. now rewrite consumed_app.
Qed.

Lemma rmatch_bytes_none {A} rest caps (k : string -> captures -> option A) :
  head_not digit_or_dash rest = true -> rmatch bytes_re rest caps k = None.
Proof.
  unfold bytes_re, plus. destruct rest as [|a rest]; [reflexivity|].
  unfold head_not, digit_or_dash. intros H.
  apply negb_true_iff, orb_false_iff in H. destruct H as [Hd Hm].
  cbn [rmatch lit rep in_class]. rewrite Hd, Hm. reflexivity.
Qed.

Lemma rmatch_bytes_digits {A} b t caps (k : string -> captures -> option A) x :
  number_text b = true -> head_not is_digit t = true ->
  k t ((5%nat, b) :: caps) = Some x ->
  rmatch bytes_re (b ++ t) caps k = Some x.
Proof.
  intros Hb Ht Hk. unfold bytes_re, plus. cbn [rmatch].
  rewrite (rep_greedy_hit CDigit _ x b); try assumption; try reflexivity.
  - now apply number_text_digits.
  - now apply number_text_length.
  - now rewrite consumed_app.
Qed.

Lemma clf_line_norm ip ts req st rest :
  clf_line ip ts req st rest =
  ip ++ (" - - [" ++ (ts ++ String "]" (after_stamp req st rest))).
Proof.
  unfold clf_line, after_stamp, after_request, quoted, str1. simpl.
  rewrite str_app_assoc. reflexivity.
Qed.

Lemma apache_unfold {A} d1 d2 d3 d4 ts req st rest (k : string -> captures -> option A) :
  let ip := dotted d1 d2 d3 d4 in
  let line := clf_line ip ts req st rest in
  octet d1 = true -> octet d2 = true -> octet d3 = true -> octet d4 = true ->
  free_of "]" ts = true -> free_of DQ req = true -> number_text st = true ->
  rmatch apache_re line [] k =
  match
    match rmatch bytes_re rest (caps_upto 4 ip ts req st) k with
    | Some x => Some x
    | None =>
        rep CAny 0 None false (after_request st rest)
          (fun s' => rmatch (cat request_close) s'
             ((3%nat, consumed (req ++ String DQ (after_request st rest)) s')
                :: caps_upto 2 ip ts req st) k)
    end
  with
  | Some x => Some x
  | None =>
      rep CAny 0 None false (after_stamp req st rest)
        (fun s' => rmatch (cat stamp_close) s'
           ((2%nat, consumed (ts ++ String "]" (after_stamp req st rest)) s')
              :: caps_upto 1 ip ts req st) k)
  end.
Proof.
  intros ip line O1 O2 O3 O4 Hts Hreq Hst.
  unfold line. rewrite clf_line_norm. unfold ip.
  change apache_re with
    (cat (Grp 1 dotted_quad :: lit " - - [" :: Grp 2 (star_lazy CAny) :: stamp_close)).
  rewrite rmatch_cat_cons, rmatch_ip; try assumption; try reflexivity;
    [|intros a u caps' Ha; rewrite rmatch_cat_cons; apply rmatch_lit_head;
      now apply (eqb_other is_digit)].
  rewrite rmatch_cat_cons, rmatch_lit.
  rewrite rmatch_cat_cons, (rmatch_grp_lazy 2 "]"); try assumption; try reflexivity;
    [|intros a u caps' Ha; unfold stamp_close; rewrite rmatch_cat_cons;
      now apply rmatch_lit_head].
  replace (rmatch (cat stamp_close) (String "]" (after_stamp req st rest))
             [(2%nat, ts); (1%nat, dotted d1 d2 d3 d4)] k)
    with (match rmatch bytes_re rest (caps_upto 4 (dotted d1 d2 d3 d4) ts req st) k with
          | Some x => Some x
          | None =>
              rep CAny 0 None false (after_request st rest)
                (fun s' => rmatch (cat request_close) s'
                   ((3%nat, consumed (req ++ String DQ (after_request st rest)) s')
                      :: caps_upto 2 (dotted d1 d2 d3 d4) ts req st) k)
          end); [reflexivity|].
  unfold stamp_close at 1. unfold after_stamp.
  rewrite rmatch_cat_cons.
  rewrite rmatch_lit2, rmatch_cat_cons, rmatch_dq.
  rewrite rmatch_cat_cons, (rmatch_grp_lazy 3 DQ); try assumption; try reflexivity;
    [|intros a u caps' Ha; unfold request_close; rewrite rmatch_cat_cons;
      now apply rmatch_atom_head].
  replace (rmatch (cat request_close) (String DQ (after_request st rest))
             [(3%nat, req); (2%nat, ts); (1%nat, dotted d1 d2 d3 d4)] k)
    with (rmatch bytes_re rest (caps_upto 4 (dotted d1 d2 d3 d4) ts req st) k);
    [reflexivity|].
  unfold request_close, after_request.
  rewrite rmatch_cat_cons, rmatch_dq, rmatch_cat_cons.
  rewrite rmatch_lit1, rmatch_cat_cons. unfold plus.
  rewrite rmatch_grp_digits;
    [ | now apply number_text_digits | now apply number_text_length
      | exact I | reflexivity
      | intros a u caps' Ha; rewrite rmatch_cat_cons; apply rmatch_lit_head;
        now apply (eqb_other is_digit) ].
  rewrite rmatch_cat_cons.
  rewrite rmatch_lit1, rmatch_cat_cons.
  reflexivity.
Qed.

Lemma all_suffixes_count x n s :
  (count_char x s <= n)%nat -> all_suffixes (fun u => (count_char x u <= n)%nat) s.
Proof.
  induction s as [|a s IH]; simpl; intros H; split; auto.
  apply IH. lia.
Qed.

Lemma request_close_needs_quote {A} s caps (k : string -> captures -> option A) :
  head_not (fun a => Ascii.eqb a DQ) s = true ->
  rmatch (cat request_close) s caps k = None.
Proof.
  unfold request_close. rewrite rmatch_cat_cons.
  destruct s as [|a s]; [reflexivity|]. simpl head_not. intros H.
  apply negb_true_iff in H. now apply rmatch_atom_head.
Qed.

Lemma stamp_close_needs_quotes {A} u caps (k : string -> captures -> option A) :
  (count_char DQ u <= 1)%nat -> rmatch (cat stamp_close) u caps k = None.
Proof.
  intros Hc. unfold stamp_close. rewrite rmatch_cat_cons.
  destruct u as [|a [|b [|c v]]]; cbn [rmatch lit in_class].
  - reflexivity.
  - destruct (Ascii.eqb a "]"); reflexivity.
  - destruct (Ascii.eqb a "]"); [|reflexivity].
    destruct (Ascii.eqb b " "); reflexivity.
  - destruct (Ascii.eqb a "]"); [|reflexivity].
    destruct (Ascii.eqb b " "); [|reflexivity].
    rewrite rmatch_cat_cons. cbn [rmatch in_class].
    destruct (Ascii.eqb c DQ) eqn:Ec; [|reflexivity].
    rewrite rmatch_cat_cons. unfold star_lazy. cbn [rmatch].
    apply (lazy_needs_char DQ).
    + simpl in Hc. rewrite Ec in Hc.
      destruct (Ascii.eqb a DQ), (Ascii.eqb b DQ); simpl in Hc; lia.
    + intros x w Hx. apply request_close_needs_quote. simpl. now rewrite Hx.
    + reflexivity.
Qed.

Lemma apache_hit {A} d1 d2 d3 d4 ts req st rest (k : string -> captures -> option A) x :
  let ip := dotted d1 d2 d3 d4 in
  octet d1 = true -> octet d2 = true -> octet d3 = true -> octet d4 = true ->
  free_of "]" ts = true -> free_of DQ req = true -> number_text st = true ->
  rmatch bytes_re rest (caps_upto 4 ip ts req st) k = Some x ->
  rmatch apache_re (clf_line ip ts req st rest) [] k = Some x.
Proof.
  intros ip O1 O2 O3 O4 Hts Hreq Hst H.
  unfold ip in *. rewrite apache_unfold by assumption. now rewrite H.
Qed.

Lemma free_of_count x s : free_of x s = true -> count_char x s = O.
Proof.
  unfold free_of. apply (count_char_none x (not_chars LF x)).
  unfold not_chars. now rewrite Ascii.eqb_refl, andb_false_r.
Qed.

Lemma apache_miss {A} d1 d2 d3 d4 ts req st rest (k : string -> captures -> option A) :
  let ip := dotted d1 d2 d3 d4 in
  octet d1 = true -> octet d2 = true -> octet d3 = true -> octet d4 = true ->
  free_of "]" ts = true -> free_of DQ req = true -> number_text st = true ->
  count_char DQ rest = O ->
  rmatch bytes_re rest (caps_upto 4 ip ts req st) k = None ->
  rmatch apache_re (clf_line ip ts req st rest) [] k = None.
Proof.
  intros ip O1 O2 O3 O4 Hts Hreq Hst Hrest H.
  unfold ip in *. rewrite apache_unfold by assumption. rewrite H.
  assert (Cst : count_char DQ st = O)
    by (apply (count_char_none DQ is_digit);
        [reflexivity | now apply number_text_digits]).
  assert (Car : count_char DQ (after_request st rest) = O).
  { unfold after_request. simpl. rewrite count_char_app. simpl.
    rewrite Cst, Hrest. reflexivity. }
  rewrite (lazy_needs_char DQ); [ | assumption | | reflexivity ];
    [|intros a u Ha; apply request_close_needs_quote; simpl; now rewrite Ha].
  apply rep_lazy_none. unfold after_stamp.
  split; [reflexivity|]. split; [reflexivity|].
  eapply all_suffixes_impl;
    [|apply (all_suffixes_count DQ 1)].
  - intros u Hu. now apply stamp_close_needs_quotes.
  - rewrite count_char_app. cbn [count_char].
    rewrite Car, (free_of_count DQ req Hreq), Ascii.eqb_refl. lia.
Qed.

(** ** Soundness of the matcher *)

Lemma rep_sound {A} c g (k : string -> option A) x s : forall lo hi,
  rep c lo hi g s k = Some x ->
  exists p t, s = p ++ t /\ str_forall (in_class c) p = true /\
              (lo <= String.length p)%nat /\
              match hi with Some h => (String.length p <= h)%nat | None => True end /\
              k t = Some x.
Proof.
  assert (stop : forall (hi : option nat) s, k s = Some x ->
            exists p t, s = p ++ t /\ str_forall (in_class c) p = true /\
              (0 <= String.length p)%nat /\
              match hi with Some h => (String.length p <= h)%nat | None => True end /\
              k t = Some x).
  { intros hi s0 H. exists EmptyString, s0. simpl. repeat split; auto.
    destruct hi; [lia | exact I]. }
  induction s as [|a s IH]; intros lo hi H.
  - destruct lo; simpl in H; [|discriminate].
    destruct g; apply stop; [assumption|].
    destruct (k EmptyString); [assumption | discriminate].
  - assert (more : (in_class c a && can_more hi)%bool = true ->
              rep c (Nat.pred lo) (dec_hi hi) g s k = Some x ->
              exists p t, String a s = p ++ t /\ str_forall (in_class c) p = true /\
                (lo <= String.length p)%nat /\
                match hi with Some h => (String.length p <= h)%nat | None => True end /\
                k t = Some x).
    { intros Hc Hr. apply andb_true_iff in Hc. destruct Hc as [Ha Hm].
      destruct (IH _ _ Hr) as [p [t [E [Hp [Hlo [Hhi Hk]]]]]].
      exists (String a p), t. simpl. rewrite E, Ha, Hp.
      repeat split; auto; [lia|].
      destruct hi as [[|h]|]; simpl in *; [discriminate | lia | exact I]. }
    simpl in H. destruct lo as [|lo].
    + destruct g.
      * destruct ((in_class c a && can_more hi)%bool) eqn:Hc.
        -- destruct (rep c (Nat.pred 0) (dec_hi hi) true s k) eqn:Hr.
           ++ injection H as ->. now apply more.
           ++ now apply stop.
        -- now apply stop.
      * destruct (k (String a s)) eqn:Hk.
        -- injection H as ->. now apply stop.
        -- destruct ((in_class c a && can_more hi)%bool) eqn:Hc; [|discriminate].
           now apply more.
    + destruct ((in_class c a && can_more hi)%bool) eqn:Hc; [|discriminate].
      now apply more.
Qed.

Lemma rmatch_sound {A} r : forall s caps (k : string -> captures -> option A) x,
  rmatch r s caps k = Some x ->
  exists s' caps', matches r s caps s' caps' /\ k s' caps' = Some x.
Proof.
  induction r as [|cl|cl lo hi g|r1 IH1 r2 IH2|r1 IH1 r2 IH2|i r IH];
    intros s caps k x H; simpl in H.
  - exists s, caps. split; [constructor | assumption].
  - destruct s as [|a s]; [discriminate|].
    destruct (in_class cl a) eqn:Ha; [|discriminate].
    exists s, caps. split; [now constructor | assumption].
  - apply rep_sound in H. destruct H as [p [t [-> [Hp [Hlo [Hhi Hk]]]]]].
    exists t, caps. split; [now constructor | assumption].
  - apply IH1 in H. destruct H as [s1 [c1 [M1 H]]].
    apply IH2 in H. destruct H as [s2 [c2 [M2 H]]].
    exists s2, c2. split; [econstructor; eassumption | assumption].
  - destruct (rmatch r1 s caps k) eqn:H1.
    + injection H as ->. apply IH1 in H1. destruct H1 as [s' [c' [M H]]].
      exists s', c'. split; [now apply M_alt_l | assumption].
    + apply IH2 in H. destruct H as [s' [c' [M H]]].
      exists s', c'. split; [now apply M_alt_r | assumption].
  - apply IH in H. destruct H as [s' [c' [M H]]].
    exists s', ((i, consumed s s') :: c'). split; [now constructor | assumption].
Qed.

(** A group that wraps a run of digits captures that run. *)
Lemma matches_grp_plus i cl s c s' c' :
  matches (Grp i (plus cl)) s c s' c' ->
  exists p, s = p ++ s' /\ c' = (i, p) :: c /\
            str_forall (in_class cl) p = true /\ negb (is_empty p) = true.
Proof.
  intros H. inversion H as [| | | | | |? ? ? ? ? ? M]; subst.
  unfold plus in M. inversion M; subst.
  exists p. rewrite consumed_app. repeat split; auto.
  destruct p; simpl in *; [lia | reflexivity].
Qed.

Lemma matches_cat_inv r1 r2 s c s2 c2 :
  matches (Cat r1 r2) s c s2 c2 ->
  exists s1 c1, matches r1 s c s1 c1 /\ matches r2 s1 c1 s2 c2.
Proof. intros H. inversion H; subst. eauto. Qed.

Lemma matches_nogroup r s c s' c' :
  matches r s c s' c' -> ngroups r = O -> c' = c.
Proof.
  induction 1; simpl; intros N; try reflexivity; try discriminate.
  - rewrite IHmatches2, IHmatches1; [reflexivity | lia | lia].
  - apply IHmatches. lia.
  - apply IHmatches. lia.
Qed.

Lemma matches_grp_nogroup i r s c s' c' :
  matches (Grp i r) s c s' c' -> ngroups r = O ->
  exists g, c' = (i, g) :: c.
Proof.
  intros H N. inversion H as [| | | | | |? ? ? ? ? ? M]; subst.
  rewrite (matches_nogroup _ _ _ _ _ M N). eauto.
Qed.

Lemma matches_bytes s c s' c' :
  matches bytes_re s c s' c' ->
  exists b, c' = (5%nat, b) :: c /\ (b = "-" \/ number_text b = true).
Proof.
  unfold bytes_re. intros H.
  inversion H as [| | | | | |? ? ? ? ? ? M]; subst.
  inversion M as [| | | |? ? ? ? ? ? M1|? ? ? ? ? ? M1|]; subst.
  - unfold plus in M1. inversion M1; subst. rewrite consumed_app.
    exists p. split; [reflexivity|]. right. unfold number_text.
    apply andb_true_iff. split; [assumption|].
    destruct p; simpl in *; [lia | reflexivity].
  - simpl in M1. apply matches_cat_inv in M1. destruct M1 as [s1 [c1 [Ma Me]]].
    inversion Ma; subst. inversion Me; subst.
    match goal with H : in_class _ _ = true |- _ =>
      simpl in H; apply Ascii.eqb_eq in H; subst end.
    exists "-". split; [|now left].
    change (String "-" s') with ("-" ++ s'). now rewrite consumed_app.
Qed.

Ltac split_cat M :=
  repeat (apply matches_cat_inv in M;
          let s := fresh "s" in
          let c := fresh "c" in
          let H := fresh "M" in
          destruct M as [s [c [H M]]]).

Ltac caps_of_pieces :=
  repeat match goal with
         | H : matches bytes_re _ _ _ _ |- _ =>
             apply matches_bytes in H; destruct H as [? [? ?]]
         | H : matches (Grp _ (plus _)) _ _ _ _ |- _ =>
             apply matches_grp_plus in H; destruct H as [? [? [? [? ?]]]]
         | H : matches (Grp _ _) _ _ _ _ |- _ =>
             apply matches_grp_nogroup in H; [destruct H as [? ?] | reflexivity]
         | H : matches Eps _ _ _ _ |- _ => inversion H; subst; clear H
         | H : matches _ _ _ _ _ |- _ =>
             apply matches_nogroup in H; [| reflexivity]
         end.

Lemma re_match_sound r line groups :
  re_match r line = Some groups ->
  exists s' caps', matches r line [] s' caps' /\
                   groups = map (fun i => group i caps') (seq 1 (ngroups r)).
Proof.
  unfold re_match. intros H. apply rmatch_sound in H.
  destruct H as [s' [caps' [M E]]]. injection E as <-. eauto.
Qed.

Lemma apache_groups line groups :
  re_match apache_re line = Some groups ->
  exists ip ts req st b,
    groups = [Some ip; Some ts; Some req; Some st; Some b] /\
    number_text st = true /\ (b = "-" \/ number_text b = true).
Proof.
  intros H. apply re_match_sound in H. destruct H as [s' [caps' [M ->]]].
  change apache_re with
    (cat [Grp 1 dotted_quad; lit " - - ["; Grp 2 (star_lazy CAny); lit "] ";
          Atom (CLit DQ); Grp 3 (star_lazy CAny); Atom (CLit DQ); lit " ";
          Grp 4 (plus CDigit); lit " "; bytes_re]) in M.
  split_cat M. caps_of_pieces. subst. simpl.
  do 5 eexists. split; [reflexivity|]. split; [|assumption].
  unfold number_text. apply andb_true_iff. split; assumption.
Qed.

Lemma nginx_groups line groups :
  re_match nginx_re line = Some groups ->
  exists ip ts req st b ref ua,
    groups = [Some ip; Some ts; Some req; Some st; Some b; Some ref; Some ua] /\
    number_text st = true /\ number_text b = true.
Proof.
  intros H. apply re_match_sound in H. destruct H as [s' [caps' [M ->]]].
  unfold nginx_re in M.
  split_cat M. caps_of_pieces. subst. simpl.
  do 7 eexists. split; [reflexivity|].
  unfold number_text. split; apply andb_true_iff; split; assumption.
Qed.

Lemma app_groups line groups :
  re_match app_re line = Some groups ->
  exists ts level module message,
    groups = [Some ts; Some level; Some module; Some message].
Proof.
  intros H. apply re_match_sound in H. destruct H as [s' [caps' [M ->]]].
  unfold app_re in M.
  split_cat M. caps_of_pieces. subst. simpl.
  do 4 eexists. reflexivity.
Qed.

(** ** [int] on a run of digits *)

Lemma digit_not_space a : is_digit a = true -> is_space a = false.
Proof.
  unfold is_digit, is_space, in_range. intros H.
  apply andb_true_iff in H. destruct H as [H1 H2].
  apply Nat.leb_le in H1, H2.
  repeat match goal with
         | |- context [Nat.leb ?x ?y] => destruct (Nat.leb_spec x y)
         end; simpl; try reflexivity; exfalso; lia.
Qed.

Lemma rstrip_no_space s :
  str_forall (fun a => negb (is_space a)) s = true -> rstrip s = s.
Proof.
  induction s as [|a s IH]; simpl; [reflexivity|].
  intros H. apply andb_true_iff in H. destruct H as [Ha Hs].
  apply negb_true_iff in Ha. rewrite Ha, (IH Hs). reflexivity.
Qed.

Lemma lstrip_head s : head_not is_space s = true -> lstrip s = s.
Proof.
  destruct s as [|a s]; simpl; [reflexivity|].
  intros H. apply negb_true_iff in H. now rewrite H.
Qed.

Lemma str_forall_impl (f g : ascii -> bool) s :
  (forall a, f a = true -> g a = true) ->
  str_forall f s = true -> str_forall g s = true.
Proof.
  intros I. induction s as [|a s IH]; simpl; [reflexivity|].
  intros H. apply andb_true_iff in H. destruct H as [Ha Hs].
  now rewrite (I a Ha), (IH Hs).
Qed.

Lemma strip_digits s : str_forall is_digit s = true -> strip s = s.
Proof.
  intros H. unfold strip. rewrite lstrip_head.
  - apply rstrip_no_space. revert H. apply str_forall_impl.
    intros a Ha. now rewrite (digit_not_space a Ha).
  - destruct s as [|a s]; simpl in *; [reflexivity|].
    apply andb_true_iff in H. destruct H as [Ha _].
    now rewrite (digit_not_space a Ha).
Qed.

Lemma int_body_digits s : forall b acc,
  str_forall is_digit s = true -> (b = true \/ is_empty s = false) ->
  int_body s b acc = Some (digits_val acc s).
Proof.
  induction s as [|a s IH]; simpl; intros b acc H Hb.
  - destruct Hb as [->|Hb]; [reflexivity | discriminate].
  - apply andb_true_iff in H. destruct H as [Ha Hs]. rewrite Ha.
    apply IH; [assumption | now left].
Qed.

Lemma digit_count_digits s :
  str_forall is_digit s = true -> digit_count s = String.length s.
Proof.
  induction s as [|a s IH]; simpl; [reflexivity|].
  intros H. apply andb_true_iff in H. destruct H as [Ha Hs].
  now rewrite Ha, (IH Hs).
Qed.

Lemma py_int_digits s :
  number_text s = true ->
  py_int s = if fits s then Ok (digits_val 0 s) else Raise ValueError.
Proof.
  intros H. unfold number_text in H. apply andb_true_iff in H.
  destruct H as [Hd Hn]. apply negb_true_iff in Hn.
  unfold py_int, fits. rewrite (strip_digits s Hd).
  rewrite <- (digit_count_digits s Hd).
  destruct s as [|a s]; [discriminate|].
  assert (Ha : is_digit a = true) by (simpl in Hd; now apply andb_true_iff in Hd).
  assert (B : int_body (String a s) false 0 = Some (digits_val 0 (String a s)))
    by (apply int_body_digits; [assumption | now right]).
  destruct (Ascii.eqb_spec a "-") as [->|_]; [discriminate|].
  destruct (Ascii.eqb_spec a "+") as [->|_]; [discriminate|].
  destruct a as [[] [] [] [] [] [] [] []]; try discriminate Ha;
    cbv beta iota zeta; rewrite B; reflexivity.
Qed.

Lemma py_int_number s :
  number_text s = true -> fits s = true -> py_int s = Ok (digits_val 0 s).
Proof. intros H F. now rewrite (py_int_digits s H), F. Qed.

Lemma py_int_overlong s :
  number_text s = true -> fits s = false -> py_int s = Raise ValueError.
Proof. intros H F. now rewrite (py_int_digits s H), F. Qed.

(** ** The extractors *)

Section ExtractFacts.
Variable strptime : string -> string -> option datetime.

Lemma parse_apache_cases line ip ts req st b :
  re_match apache_re line = Some [Some ip; Some ts; Some req; Some st; Some b] ->
  number_text st = true -> (b = "-" \/ number_text b = true) ->
  parse_apache strptime line =
  if (fits st && (String.eqb b "-" || fits b))%bool
  then Ok (Some (request_entry (first_layout strptime ts [clf_layout]) ip req st
                   (bytes_value b) [] line))
  else Raise ValueError.
Proof.
  intros H Hst Hb. unfold parse_apache, request_entry, bytes_value. rewrite H.
  destruct (parse_request req) as [[method path] http_version].
  rewrite (py_int_digits st Hst).
  destruct (fits st); cbn [bind andb]; [|reflexivity].
  destruct Hb as [->|Hb]; [reflexivity|].
  destruct (String.eqb b "-"); [reflexivity|].
  rewrite (py_int_digits b Hb). cbn [orb].
  destruct (fits b); reflexivity.
Qed.

Lemma parse_apache_groups line ip ts req st b :
  re_match apache_re line = Some [Some ip; Some ts; Some req; Some st; Some b] ->
  number_text st = true -> (b = "-" \/ number_text b = true) ->
  fits st = true -> (b = "-" \/ fits b = true) ->
  parse_apache strptime line =
  Ok (Some (request_entry (first_layout strptime ts [clf_layout]) ip req st
              (bytes_value b) [] line)).
Proof.
  intros H Hst Hb Fst Fb. rewrite (parse_apache_cases _ _ _ _ _ _ H Hst Hb), Fst.
  destruct Fb as [-> | ->]; [reflexivity|].
  now rewrite orb_true_r.
Qed.

Lemma parse_nginx_cases line ip ts req st b ref ua :
  re_match nginx_re line =
    Some [Some ip; Some ts; Some req; Some st; Some b; Some ref; Some ua] ->
  number_text st = true -> number_text b = true ->
  parse_nginx strptime line =
  if (fits st && fits b)%bool
  then Ok (Some (request_entry (first_layout strptime ts [clf_layout]) ip req st
                   (digits_val 0 b)
                   [("referrer", VStr ref); ("user_agent", VStr ua)] line))
  else Raise ValueError.
Proof.
  intros H Hst Hb. unfold parse_nginx, request_entry. rewrite H.
  destruct (parse_request req) as [[method path] http_version].
  rewrite (py_int_digits st Hst), (py_int_digits b Hb).
  destruct (fits st); cbn [bind andb]; [|reflexivity].
  destruct (fits b); reflexivity.
Qed.

Lemma parse_nginx_groups line ip ts req st b ref ua :
  re_match nginx_re line =
    Some [Some ip; Some ts; Some req; Some st; Some b; Some ref; Some ua] ->
  number_text st = true -> number_text b = true ->
  fits st = true -> fits b = true ->
  parse_nginx strptime line =
  Ok (Some (request_entry (first_layout strptime ts [clf_layout]) ip req st
              (digits_val 0 b)
              [("referrer", VStr ref); ("user_agent", VStr ua)] line)).
Proof.
  intros H Hst Hb Fst Fb.
  now rewrite (parse_nginx_cases _ _ _ _ _ _ _ _ H Hst Hb), Fst, Fb.
Qed.

Lemma parse_app_groups line ts level module message :
  re_match app_re line = Some [Some ts; Some level; Some module; Some message] ->
  parse_app_log strptime line =
  Ok (Some (app_entry
              (first_layout strptime ts
                 ["%Y-%m-%d %H:%M:%S,%f"; "%Y-%m-%d %H:%M:%S"])
              level module message line)).
Proof.
  intros H. unfold parse_app_log, app_entry. rewrite H. reflexivity.
Qed.

Lemma parse_app_total line :
  exists r, parse_app_log strptime line = Ok r.
Proof.
  destruct (re_match app_re line) as [groups|] eqn:H.
  - destruct (app_groups _ _ H) as [ts [level [module [message ->]]]].
    rewrite (parse_app_groups _ _ _ _ _ H). eauto.
  - unfold parse_app_log. rewrite H. eauto.
Qed.

(** An extractor raises on the oversized lines and on no other; the one
    exception is [ValueError]. *)
Lemma parse_entry_spec log_format line :
  parse_entry strptime log_format line =
  if oversized log_format line then Raise ValueError
  else Ok (extract strptime log_format line).
Proof.
  unfold extract, oversized, parse_entry, patterns. cbn [dict_get].
  destruct (String.eqb log_format "apache") eqn:E1.
  { apply String.eqb_eq in E1. subst.
    destruct (re_match apache_re line) as [groups|] eqn:H.
    - destruct (apache_groups _ _ H) as [ip [ts [req [st [b [-> [Hst Hb]]]]]]].
      rewrite (parse_apache_cases _ _ _ _ _ _ H Hst Hb).
      unfold numbers_of. change (String.eqb "apache" "apache") with true.
      cbn [andb]. destruct (String.eqb b "-"); cbn [forallb];
        destruct (fits st); try destruct (fits b); reflexivity.
    - unfold parse_apache. rewrite H. reflexivity. }
  destruct (String.eqb log_format "nginx") eqn:E2.
  { apply String.eqb_eq in E2. subst.
    destruct (re_match nginx_re line) as [groups|] eqn:H.
    - destruct (nginx_groups _ _ H)
        as [ip [ts [req [st [b [ref [ua [-> [Hst Hb]]]]]]]]].
      rewrite (parse_nginx_cases _ _ _ _ _ _ _ _ H Hst Hb).
      unfold numbers_of. change (String.eqb "nginx" "apache") with false.
      cbn [andb forallb]. destruct (fits st); destruct (fits b); reflexivity.
    - unfold parse_nginx. rewrite H. reflexivity. }
  destruct (String.eqb log_format "app") eqn:E3.
  { destruct (re_match app_re line) as [groups|] eqn:H.
    - destruct (app_groups _ _ H) as [ts [level [module [message ->]]]].
      rewrite (parse_app_groups _ _ _ _ _ H). reflexivity.
    - unfold parse_app_log. rewrite H. reflexivity. }
  reflexivity.
Qed.

Lemma parse_entry_raise log_format line x :
  parse_entry strptime log_format line = Raise x ->
  x = ValueError /\ oversized log_format line = true.
Proof.
  rewrite parse_entry_spec. destruct (oversized log_format line);
    intros H; [injection H as <-; auto | discriminate].
Qed.

Lemma parse_entry_sized log_format line :
  oversized log_format line = false ->
  parse_entry strptime log_format line = Ok (extract strptime log_format line).
Proof. intros H. now rewrite parse_entry_spec, H. Qed.
End ExtractFacts.

(** ** The loop *)

Section LoopFacts.
Variable strptime : string -> string -> option datetime.

Lemma request_entry_cons stamp ip req st bytes extra line :
  exists f e, request_entry stamp ip req st bytes extra line = f :: e.
Proof.
  unfold request_entry. destruct (parse_request req) as [[m p] v].
  simpl. eauto.
Qed.

Lemma parse_entry_cons log_format line r :
  parse_entry strptime log_format line = Ok (Some r) -> exists f e, r = f :: e.
Proof.
  unfold parse_entry.
  destruct (String.eqb log_format "apache").
  { destruct (re_match apache_re line) as [groups|] eqn:H.
    - destruct (apache_groups _ _ H) as [ip [ts [req [st [b [-> [Hst Hb]]]]]]].
      rewrite (parse_apache_cases strptime _ _ _ _ _ _ H Hst Hb).
      destruct (fits st && (String.eqb b "-" || fits b))%bool;
        [|discriminate].
      intros [= <-]. apply request_entry_cons.
    - unfold parse_apache. rewrite H. discriminate. }
  destruct (String.eqb log_format "nginx").
  { destruct (re_match nginx_re line) as [groups|] eqn:H.
    - destruct (nginx_groups _ _ H)
        as [ip [ts [req [st [b [ref [ua [-> [Hst Hb]]]]]]]]].
      rewrite (parse_nginx_cases strptime _ _ _ _ _ _ _ _ H Hst Hb).
      destruct (fits st && fits b)%bool; [|discriminate].
      intros [= <-]. apply request_entry_cons.
    - unfold parse_nginx. rewrite H. discriminate. }
  destruct (String.eqb log_format "app").
  { destruct (re_match app_re line) as [groups|] eqn:H.
    - destruct (app_groups _ _ H) as [ts [level [module [message ->]]]].
      rewrite (parse_app_groups strptime _ _ _ _ _ H).
      intros [= <-]. unfold app_entry. eauto.
    - unfold parse_app_log. rewrite H. discriminate. }
  discriminate.
Qed.

Lemma processed_nil max_lines c : processed max_lines c [] = [].
Proof.
  unfold processed. destruct max_lines as [m|]; [|reflexivity].
  destruct (m =? 0); [reflexivity | apply firstn_nil].
Qed.

(** The loop keeps at least the first line it meets. *)
Lemma processed_cons max_lines c l ls :
  exists ls', processed max_lines c (l :: ls) = l :: ls'.
Proof.
  unfold processed. destruct max_lines as [m|]; [|eauto].
  destruct (m =? 0); [eauto|].
  destruct (Z.to_nat (Z.max 1 (m - c))) as [|n] eqn:E; [lia|].
  simpl. eauto.
Qed.

(** The loop raises when one of the lines it works on is oversized;
    otherwise it returns the records of these lines, in order, after
    those it was given. *)
Lemma parse_loop_spec log_format max_lines lines : forall line_count acc,
  parse_loop strptime log_format max_lines lines line_count acc =
  let ls := processed max_lines line_count (nonblank lines) in
  if existsb (oversized log_format) ls then Raise ValueError
  else Ok (acc ++ records_of strptime log_format ls)%list.
Proof.
  cbv zeta.
  induction lines as [|raw rest IH]; intros line_count acc; simpl.
  - unfold nonblank. simpl. rewrite processed_nil. simpl. now rewrite app_nil_r.
  - unfold nonblank in *. simpl.
    destruct (is_empty (strip raw)) eqn:E; simpl; [apply IH|].
    set (ls := filter (fun l => negb (is_empty l)) (map strip rest)) in *.
    rewrite parse_entry_spec.
    destruct (oversized log_format (strip raw)) eqn:Ov.
    { destruct (processed_cons max_lines line_count (strip raw) ls) as [ls' ->].
      simpl. now rewrite Ov. }
    cbn [bind].
    assert (A : append_entry acc (extract strptime log_format (strip raw)) =
                (acc ++ match extract strptime log_format (strip raw) with
                        | Some r => [r]
                        | None => []
                        end)%list).
    { destruct (extract strptime log_format (strip raw)) as [r|] eqn:He; simpl.
      - unfold extract in He.
        destruct (parse_entry strptime log_format (strip raw))
          as [[r'|]|] eqn:P; try discriminate.
        injection He as ->.
        destruct (parse_entry_cons _ _ _ P) as [f [e ->]]. reflexivity.
      - now rewrite app_nil_r. }
    rewrite A. clear A.
    unfold cap_reached, processed. destruct max_lines as [m|].
    + destruct (Z.eqb_spec m 0) as [->|Hm]; simpl.
      * rewrite IH. unfold processed. simpl. rewrite Ov. simpl.
        destruct (existsb (oversized log_format) ls); [reflexivity|].
        destruct (extract strptime log_format (strip raw));
          rewrite <- app_assoc; reflexivity.
      * destruct (Z.leb_spec m (line_count + 1)) as [Hc|Hc].
        -- replace (Z.to_nat (Z.max 1 (m - line_count))) with 1%nat by lia.
           simpl. rewrite Ov. simpl.
           destruct (extract strptime log_format (strip raw)); reflexivity.
        -- rewrite IH. unfold processed.
           destruct (Z.eqb_spec m 0); [contradiction|].
           replace (Z.to_nat (Z.max 1 (m - line_count)))
             with (S (Z.to_nat (Z.max 1 (m - (line_count + 1))))) by lia.
           simpl. rewrite Ov. simpl.
           destruct (existsb (oversized log_format)
                       (firstn (Z.to_nat (Z.max 1 (m - (line_count + 1)))) ls));
             [reflexivity|].
           destruct (extract strptime log_format (strip raw));
             rewrite <- app_assoc; reflexivity.
    + rewrite IH. unfold processed.
      simpl. rewrite Ov. simpl.
      destruct (existsb (oversized log_format) ls); [reflexivity|].
      destruct (extract strptime log_format (strip raw));
        rewrite <- app_assoc; reflexivity.
Qed.
End LoopFacts.

(** ** Counting and ranking *)

Lemma value_eqb_eq a b : value_eqb a b = true <-> a = b.
Proof. unfold value_eqb. destruct (value_eq_dec a b); split; congruence. Qed.

Lemma value_eqb_refl a : value_eqb a a = true.
Proof. now apply value_eqb_eq. Qed.

Lemma value_eqb_neq a b : a <> b -> value_eqb a b = false.
Proof. unfold value_eqb. destruct (value_eq_dec a b); congruence. Qed.

Lemma dedup_snoc p x :
  dedup (p ++ [x]) = if in_dec value_eq_dec x p then dedup p else (dedup p ++ [x])%list.
Proof.
  unfold dedup. rewrite rev_unit. simpl.
  destruct (in_dec value_eq_dec x (rev p)) as [i|n];
    destruct (in_dec value_eq_dec x p) as [i'|n']; try reflexivity.
  - exfalso. apply n'. now apply in_rev.
  - exfalso. apply n. now apply in_rev in i'.
Qed.

Lemma dedup_In p x : In x (dedup p) <-> In x p.
Proof.
  unfold dedup. rewrite <- in_rev, nodup_In, <- in_rev. tauto.
Qed.

Lemma dict_get_None (c : counts) k :
  dict_get value_eqb c k = None <-> ~ In k (map fst c).
Proof.
  induction c as [|[k' n] c IH]; simpl.
  - tauto.
  - unfold value_eqb at 1. destruct (value_eq_dec k k') as [->|ne].
    + split; [discriminate | intros H; exfalso; apply H; now left].
    + rewrite IH. split; [intros H [E|I]; [congruence | tauto] | tauto].
Qed.

Lemma dict_set_keys (c : counts) k v :
  map fst (dict_set value_eqb c k v) =
  if dict_has value_eqb c k then map fst c else (map fst c ++ [k])%list.
Proof.
  unfold dict_has. induction c as [|[k' n] c IH]; simpl; [reflexivity|].
  destruct (value_eqb k k'); simpl; [reflexivity|].
  rewrite IH. destruct (dict_get value_eqb c k); reflexivity.
Qed.

Lemma dict_set_In (c : counts) k v x :
  NoDup (map fst c) -> In x (dict_set value_eqb c k v) ->
  x = (k, v) \/ (fst x <> k /\ In x c).
Proof.
  induction c as [|[k' n] c IH]; simpl; intros ND H.
  - destruct H as [<-|[]]. now left.
  - inversion ND as [|? ? Hnot ND']; subst.
    unfold value_eqb in H. destruct (value_eq_dec k k') as [->|ne]; simpl in H.
    + destruct H as [<-|H]; [now left|].
      right. split; [|now right].
      intros E. apply Hnot. rewrite <- E. now apply in_map.
    + destruct H as [<-|H]; [right; split; [simpl; congruence | now left]|].
      destruct (IH ND' H) as [->|[? ?]]; [now left|].
      right; split; [assumption | now right].
Qed.

Lemma dict_get_In (c : counts) k n :
  dict_get value_eqb c k = Some n -> In (k, n) c.
Proof.
  induction c as [|[k' n'] c IH]; simpl; [discriminate|].
  unfold value_eqb. destruct (value_eq_dec k k') as [->|ne].
  - intros [= ->]. now left.
  - intros H. right. now apply IH.
Qed.

Lemma occurrences_snoc k p x :
  occurrences k (p ++ [x]) = occurrences k p + (if value_eq_dec x k then 1 else 0).
Proof.
  unfold occurrences. rewrite count_occ_app. simpl.
  destruct (value_eq_dec x k); lia.
Qed.

Lemma NoDup_dedup p : NoDup (dedup p).
Proof. unfold dedup. apply NoDup_rev, NoDup_nodup. Qed.

Lemma incr_tallied p c x : tallied p c -> tallied (p ++ [x]) (incr c x).
Proof.
  intros [Hk Hn]. unfold incr. split.
  - rewrite dict_set_keys, dedup_snoc. unfold dict_has.
    destruct (dict_get value_eqb c x) eqn:G.
    + destruct (in_dec value_eq_dec x p) as [i|n0]; [assumption|].
      exfalso. apply dict_get_In in G. apply n0, (proj1 (dedup_In _ _)). rewrite <- Hk.
      change x with (fst (x, z)). now apply in_map.
    + destruct (in_dec value_eq_dec x p) as [i|n0]; [|now rewrite Hk].
      exfalso. apply dict_get_None in G. apply G. rewrite Hk.
      now apply (proj2 (dedup_In _ _)).
  - intros k n HI.
    apply dict_set_In in HI; [|rewrite Hk; apply NoDup_dedup].
    rewrite occurrences_snoc.
    destruct HI as [E|[ne HI]].
    + injection E as -> ->. destruct (value_eq_dec x x); [|congruence].
      destruct (dict_get value_eqb c x) eqn:G.
      * apply dict_get_In in G. rewrite (Hn _ _ G). reflexivity.
      * apply dict_get_None in G. rewrite Hk, dedup_In in G.
        unfold occurrences.
        rewrite (proj1 (count_occ_not_In value_eq_dec p x) G). reflexivity.
    + simpl in ne. destruct (value_eq_dec x k); [congruence|].
      rewrite (Hn _ _ HI). lia.
Qed.

Lemma fold_incr_tallied ks : forall p c,
  tallied p c -> tallied (p ++ ks) (fold_left incr ks c).
Proof.
  induction ks as [|x ks IH]; intros p c H; simpl.
  - now rewrite app_nil_r.
  - replace (p ++ x :: ks)%list with ((p ++ [x]) ++ ks)%list
      by (rewrite <- app_assoc; reflexivity).
    apply IH. now apply incr_tallied.
Qed.

Lemma tally_tallied ks : tallied ks (tally ks).
Proof.
  apply (fold_incr_tallied ks [] []). split; [reflexivity | intros ? ? []].
Qed.

(** First-appearance order of the distinct keys. *)
Lemma first_index_lt_length k p : In k p -> (first_index k p < length p)%nat.
Proof.
  induction p as [|x p IH]; simpl; [tauto|].
  intros H. destruct (value_eqb k x) eqn:E; [lia|].
  destruct H as [->|H]; [rewrite value_eqb_refl in E; discriminate|].
  specialize (IH H). lia.
Qed.

Lemma first_index_app_l k p q : In k p -> first_index k (p ++ q) = first_index k p.
Proof.
  induction p as [|x p IH]; simpl; [tauto|].
  intros H. destruct (value_eqb k x) eqn:E; [reflexivity|].
  destruct H as [->|H]; [rewrite value_eqb_refl in E; discriminate|].
  now rewrite IH.
Qed.

Lemma first_index_app_r k p q :
  ~ In k p -> first_index k (p ++ q) = (length p + first_index k q)%nat.
Proof.
  induction p as [|x p IH]; simpl; [reflexivity|].
  intros H. rewrite value_eqb_neq by (intros ->; apply H; now left).
  rewrite IH by (intros I; apply H; now right). reflexivity.
Qed.

Lemma StronglySorted_snoc {A} (R : A -> A -> Prop) l x :
  StronglySorted R l -> Forall (fun y => R y x) l -> StronglySorted R (l ++ [x]).
Proof.
  induction 1 as [|a l S IH F]; intros H; simpl.
  - constructor; constructor.
  - inversion H; subst. constructor; [now apply IH|].
    apply Forall_app. split; [assumption | now constructor].
Qed.

Lemma StronglySorted_map_fst {A B} (R : A -> A -> Prop) (l : list (A * B)) :
  StronglySorted R (map fst l) -> StronglySorted (fun x y => R (fst x) (fst y)) l.
Proof.
  induction l as [|x l IH]; simpl; intros H; [constructor|].
  inversion H as [|? ? S F]; subst. constructor; [now apply IH|].
  rewrite Forall_map in F. exact F.
Qed.

Lemma dedup_sorted p : forall q,
  StronglySorted (fun a b => (first_index a (p ++ q) < first_index b (p ++ q))%nat)
    (dedup p).
Proof.
  induction p as [|x p IH] using rev_ind; intros q.
  - constructor.
  - rewrite dedup_snoc. rewrite <- app_assoc.
    destruct (in_dec value_eq_dec x p) as [i|n]; [apply IH|].
    apply StronglySorted_snoc; [apply IH|].
    apply Forall_forall. intros y Hy. apply (proj1 (dedup_In _ _)) in Hy.
    rewrite (first_index_app_l y p _ Hy), (first_index_app_r x p _ n).
    pose proof (first_index_lt_length y p Hy). lia.
Qed.

Lemma tally_seen_order ks : StronglySorted (seen_before ks) (tally ks).
Proof.
  apply (StronglySorted_map_fst
           (fun a b => (first_index a ks < first_index b ks)%nat)).
  destruct (tally_tallied ks) as [-> _].
  pose proof (dedup_sorted ks []) as H. now rewrite app_nil_r in H.
Qed.

(** The stable sort. *)
Lemma insert_desc_Forall (P : value * Z -> Prop) x l :
  Forall P (insert_desc x l) <-> P x /\ Forall P l.
Proof.
  induction l as [|y l IH]; simpl.
  - split; [intros H; inversion H; auto | intros [? ?]; auto].
  - destruct (snd x <? snd y).
    + split.
      * intros H. inversion H as [|? ? Py F]; subst. apply IH in F.
        destruct F. auto.
      * intros [Px F]. inversion F; subst. constructor; [assumption|].
        apply IH. auto.
    + split; [intros H; inversion H; auto | intros [? ?]; auto].
Qed.

Lemma sorted_desc_Forall (P : value * Z -> Prop) l :
  Forall P (sorted_desc l) <-> Forall P l.
Proof.
  induction l as [|x l IH]; simpl; [tauto|].
  rewrite insert_desc_Forall, IH.
  split; [intros [? ?]; auto | intros H; inversion H; auto].
Qed.

Lemma sorted_desc_In x l : In x (sorted_desc l) <-> In x l.
Proof.
  split; intros H.
  - assert (F : Forall (fun y => In y l) (sorted_desc l))
      by (apply sorted_desc_Forall, Forall_forall; auto).
    rewrite Forall_forall in F. auto.
  - assert (F : Forall (fun y => In y (sorted_desc l)) l)
      by (apply sorted_desc_Forall, Forall_forall; auto).
    rewrite Forall_forall in F. auto.
Qed.

Lemma insert_desc_sorted ks x l :
  StronglySorted (ranks_before ks) l -> Forall (seen_before ks x) l ->
  StronglySorted (ranks_before ks) (insert_desc x l).
Proof.
  induction 1 as [|y l S IH F]; intros T; simpl.
  - constructor; constructor.
  - inversion T as [|? ? Ty Tl]; subst.
    destruct (snd x <? snd y) eqn:E.
    + apply Z.ltb_lt in E. constructor; [now apply IH|].
      apply insert_desc_Forall. split; [now left | assumption].
    + apply Z.ltb_ge in E. constructor; [now constructor|].
      constructor.
      * destruct (Z.eq_dec (snd x) (snd y)); [right; auto | left; lia].
      * rewrite Forall_forall in F, Tl. apply Forall_forall. intros z Hz.
        specialize (F z Hz). specialize (Tl z Hz).
        destruct F as [F|[F _]].
        -- left. lia.
        -- destruct (Z.eq_dec (snd x) (snd z)); [right; auto | left; lia].
Qed.

Lemma sorted_desc_sorted ks l :
  StronglySorted (seen_before ks) l ->
  StronglySorted (ranks_before ks) (sorted_desc l).
Proof.
  induction 1 as [|x l S IH F]; simpl; [constructor|].
  apply insert_desc_sorted; [assumption|].
  now apply sorted_desc_Forall.
Qed.

Lemma In_firstn {A} n : forall (l : list A) x, In x (firstn n l) -> In x l.
Proof.
  induction n as [|n IH]; intros [|a l] x; simpl; try tauto.
  intros [->|H]; [now left | right; now apply IH].
Qed.

Lemma StronglySorted_firstn {A} (R : A -> A -> Prop) n : forall l,
  StronglySorted R l -> StronglySorted R (firstn n l).
Proof.
  induction n as [|n IH]; intros l H; simpl; [constructor|].
  destruct H as [|x l S F]; [constructor|].
  constructor; [now apply IH|].
  rewrite Forall_forall in *. intros y Hy. apply F.
  eapply In_firstn; eauto.
Qed.

Lemma firstn_or_skipn {A} n (l : list A) x :
  In x l -> In x (firstn n l) \/ In x (skipn n l).
Proof.
  intros H. rewrite <- (firstn_skipn n l) in H. now apply in_app_or in H.
Qed.

Lemma StronglySorted_app_inv {A} (R : A -> A -> Prop) l1 : forall l2,
  StronglySorted R (l1 ++ l2) ->
  forall x y, In x l1 -> In y l2 -> R x y.
Proof.
  induction l1 as [|a l1 IH]; simpl; intros l2 H x y Hx Hy; [tauto|].
  inversion H as [|? ? S F]; subst. destruct Hx as [->|Hx].
  - rewrite Forall_forall in F. apply F, in_or_app. now right.
  - eapply IH; eauto.
Qed.

Lemma tally_complete ks k : In k ks -> In (k, occurrences k ks) (tally ks).
Proof.
  intros H. destruct (tally_tallied ks) as [Hk Hn].
  apply (proj2 (dedup_In _ _)) in H. rewrite <- Hk in H.
  apply in_map_iff in H. destruct H as [[k' n] [E HI]]. simpl in E. subst k'.
  now rewrite <- (Hn _ _ HI).
Qed.

Lemma top10_is_ranking ks : is_ranking ks (top10 (tally ks)).
Proof.
  unfold top10, is_ranking. repeat split.
  - apply firstn_le_length.
  - apply StronglySorted_firstn, sorted_desc_sorted, tally_seen_order.
  - apply In_firstn in H. apply (proj1 (sorted_desc_In _ _)) in H.
    destruct (tally_tallied ks) as [Hk _]. apply (proj1 (dedup_In _ _)). rewrite <- Hk.
    change k with (fst (k, n)). now apply in_map.
  - apply In_firstn in H. apply (proj1 (sorted_desc_In _ _)) in H.
    destruct (tally_tallied ks) as [_ Hn]. now apply Hn.
  - intros k Hk. apply tally_complete in Hk. apply (proj2 (sorted_desc_In _ _)) in Hk.
    destruct (firstn_or_skipn 10 _ _ Hk) as [H|H]; [now left|right].
    assert (L : (10 <= length (sorted_desc (tally ks)))%nat).
    { destruct (Nat.le_gt_cases 10 (length (sorted_desc (tally ks)))) as [?|G];
        [assumption|].
      rewrite skipn_all2 in H by lia. destruct H. }
    split; [rewrite length_firstn; lia|].
    intros x Hx.
    pose proof (sorted_desc_sorted ks _ (tally_seen_order ks)) as S.
    rewrite <- (firstn_skipn 10 (sorted_desc (tally ks))) in S.
    pose proof (StronglySorted_app_inv _ _ _ S _ _ Hx H) as R.
    destruct R as [R|[R _]]; simpl in R; lia.
Qed.

(** ** The analyzer *)

Lemma count_by_ok name entries : forall c c',
  count_by name entries c = Ok c' ->
  exists ks, column name entries = map Some ks /\ c' = fold_left incr ks c.
Proof.
  induction entries as [|e entries IH]; simpl; intros c c' H.
  - injection H as <-. now exists [].
  - unfold getitem, column, field in *. simpl.
    destruct (dict_get String.eqb e name) as [v|]; simpl in H; [|discriminate].
    destruct (IH _ _ H) as [ks [E ->]]. exists (v :: ks). simpl. now rewrite E.
Qed.

Lemma count_by_fields name entries c c' :
  count_by name entries c = Ok c' ->
  Forall (fun e => has_field e name = true) entries.
Proof.
  revert c. induction entries as [|e entries IH]; simpl; intros c H; [constructor|].
  unfold getitem, has_field, dict_has in *.
  destruct (dict_get String.eqb e name) eqn:G; simpl in H; [|discriminate].
  constructor; [now rewrite G | eauto].
Qed.

Lemma count_by_raise name entries : forall c x,
  count_by name entries c = Raise x ->
  x = KeyError /\ exists e, In e entries /\ has_field e name = false.
Proof.
  induction entries as [|e entries IH]; simpl; intros c x H; [discriminate|].
  unfold getitem, has_field, dict_has in *.
  destruct (dict_get String.eqb e name) eqn:G; simpl in H.
  - destruct (IH _ _ H) as [-> [e' [I F]]]. split; [reflexivity|].
    exists e'. split; [now right | assumption].
  - injection H as <-. split; [reflexivity|]. exists e.
    split; [now left | now rewrite G].
Qed.

Lemma dict_has_In {V} (a : dict string V) k :
  dict_has String.eqb a k = true -> In k (map fst a).
Proof.
  unfold dict_has. induction a as [|[k' v] a IH]; simpl; [discriminate|].
  destruct (String.eqb_spec k k') as [->|ne]; [now left | right; now apply IH].
Qed.

Ltac analyze_cases first entries :=
  simpl;
  destruct (has_field first "ip") eqn:Hip; simpl;
  [ destruct (count_by "ip" entries []) eqn:Cip; simpl;
    [ destruct (count_by "status" entries []) eqn:Cst; simpl;
      [ destruct (has_field first "path") eqn:Hpa; simpl;
        [ destruct (count_by "path" entries []) eqn:Cpa; simpl | ]
      | ]
    | ]
  | ];
  (destruct (has_field first "level") eqn:Hle; simpl;
   [ destruct (count_by "level" entries []) eqn:Cle; simpl;
     [ destruct (has_field first "module") eqn:Hmo; simpl;
       [ destruct (count_by "module" entries []) eqn:Cmo; simpl | ]
     | ]
   | ]).

Lemma StronglySorted_nth {A} (R : A -> A -> Prop) l :
  StronglySorted R l ->
  forall i j x y, (i < j)%nat ->
    nth_error l i = Some x -> nth_error l j = Some y -> R x y.
Proof.
  induction 1 as [|a l S IH F]; intros i j x y Hij Hx Hy.
  - destruct i; discriminate.
  - destruct j as [|j]; [lia|]. simpl in Hy. destruct i as [|i]; simpl in Hx.
    + injection Hx as <-. rewrite Forall_forall in F.
      apply F. eapply nth_error_In; eassumption.
    + apply (IH i j); [lia | assumption | assumption].
Qed.

(** In a ranking, of two entries with the same count the one first seen
    earlier is listed earlier. *)
Lemma ranking_tie_order ks l :
  StronglySorted (ranks_before ks) l ->
  forall i j x y,
    nth_error l i = Some x -> nth_error l j = Some y ->
    snd x = snd y -> seen_before ks x y -> (i < j)%nat.
Proof.
  intros S i j x y Hx Hy E B. unfold seen_before in B.
  destruct (Nat.lt_trichotomy i j) as [Hij|[->|Hji]]; [assumption | |].
  - rewrite Hx in Hy. injection Hy as <-. lia.
  - destruct (StronglySorted_nth _ _ S j i y x Hji Hy Hx) as [R|[_ R]];
      [lia | unfold seen_before in R; lia].
Qed.

Lemma ranking_of_count name entries c :
  count_by name entries [] = Ok c ->
  exists ks,
    column name entries = map Some ks /\ is_ranking ks (top10 c) /\
    forall i j x y,
      nth_error (top10 c) i = Some x -> nth_error (top10 c) j = Some y ->
      snd x = snd y -> seen_before ks x y -> (i < j)%nat.
Proof.
  intros H. destruct (count_by_ok _ _ _ _ H) as [ks [E ->]].
  exists ks. split; [assumption|]. split; [apply top10_is_ranking|].
  apply ranking_tie_order. apply (top10_is_ranking ks).
Qed.

(** C8.  Every ranking the analyzer produces ([top_ips], [top_paths],
    [top_modules]) has at most ten entries, pairs each key with its number
    of occurrences in the input, is ordered by descending count with ties
    in order of first appearance (any entry comes before a later one either
    by a larger count or, at equal counts, by an earlier first index), and
    leaves out only keys that no listed entry is below.  In particular, of
    two listed keys with equal counts the one that first appears earlier
    in the input is listed earlier. *)
Theorem analyze_rankings entries a dim name l :
  analyze entries = Ok a ->
  In (dim, name) ranked_dimensions ->
  dict_get String.eqb a dim = Some (Ranking l) ->
  exists ks,
    column name entries = map Some ks /\ is_ranking ks l /\
    forall i j x y,
      nth_error l i = Some x -> nth_error l j = Some y ->
      snd x = snd y -> seen_before ks x y -> (i < j)%nat.
Proof.
  intros HA HD HG. destruct entries as [|first rest].
  - injection HA as <-. simpl in HD.
    destruct HD as [E|[E|[E|[]]]]; injection E as <- <-; discriminate.
  - revert HA. unfold analyze. remember (first :: rest) as entries eqn:He.
    clear He. analyze_cases first entries; intros HA;
      try discriminate; injection HA as <-;
      simpl in HD; destruct HD as [E|[E|[E|[]]]]; injection E as <- <-;
      simpl in HG; try discriminate; injection HG as <-;
      eauto using ranking_of_count.
Qed.

Lemma count_by_uniform name entries x :
  (forall e, In e entries -> has_field e name = true) ->
  count_by name entries [] = Raise x -> False.
Proof.
  intros U H. destruct (count_by_raise _ _ _ _ H) as [_ [e [I F]]].
  rewrite (U e I) in F. discriminate.
Qed.

Ltac rewrite_shape :=
  unfold selected_fields;
  repeat match goal with
         | H : has_field _ _ = _ |- _ => rewrite H; clear H
         end;
  simpl.

Ltac try_source f :=
  exists f; split; [solve [simpl; auto 10] | split];
  [ solve [rewrite_shape; auto 10]
  | solve [eapply count_by_fields; eassumption] ].

Ltac pick_source :=
  first [ try_source "ip" | try_source "status" | try_source "path"
        | try_source "level" | try_source "module" ].

(** C3 (amended).  On a non-empty sequence in which every record has the
    fields that the first record's shape selects, [analyze] does not
    raise.  Whenever [analyze] returns, each dimension of its result has
    its source field among those selected and present in every record. *)
Theorem analyze_uniform first rest :
  ((forall e f, In e (first :: rest) -> In f (selected_fields first) ->
                has_field e f = true) ->
   exists a, analyze (first :: rest) = Ok a) /\
  (forall a dim,
     analyze (first :: rest) = Ok a ->
     dict_has String.eqb a dim = true ->
     exists f, In (dim, f) dimension_sources /\
               In f (selected_fields first) /\
               Forall (fun e => has_field e f = true) (first :: rest)).
Proof.
  unfold analyze. remember (first :: rest) as entries eqn:He. clear He.
  split.
  - unfold selected_fields.
    analyze_cases first entries; intros U;
      try match goal with
          | H : count_by ?n _ _ = Raise _ |- _ =>
              exfalso;
              apply (count_by_uniform n _ _
                       (fun e I => U e n I ltac:(simpl; auto 10)) H)
          end;
      eexists; reflexivity.
  - intros a dim. analyze_cases first entries; intros HA; try discriminate;
      injection HA as <-;
      intros HD; apply dict_has_In in HD; simpl in HD;
      repeat (destruct HD as [<-|HD]; [pick_source|]); destruct HD.
Qed.


(** ** What a matching line looks like *)

Lemma matches_lit w : forall s c s' c',
  matches (lit w) s c s' c' -> s = w ++ s' /\ c' = c.
Proof.
  induction w as [|a w IH]; simpl; intros s c s' c' H.
  - inversion H; subst. auto.
  - apply matches_cat_inv in H. destruct H as [s1 [c1 [Ma Mw]]].
    inversion Ma; subst. apply IH in Mw. destruct Mw as [-> ->].
    match goal with H : in_class _ _ = true |- _ =>
      simpl in H; apply Ascii.eqb_eq in H; subst end.
    auto.
Qed.

Lemma matches_dq s c s' c' :
  matches (Atom (CLit DQ)) s c s' c' -> s = String DQ s' /\ c' = c.
Proof.
  intros H. inversion H; subst.
  match goal with H : in_class _ _ = true |- _ =>
    simpl in H; apply Ascii.eqb_eq in H; subst end.
  auto.
Qed.

Lemma matches_rep cl lo hi g s c s' c' :
  matches (Rep cl lo hi g) s c s' c' ->
  exists p, s = p ++ s' /\ c' = c /\ str_forall (in_class cl) p = true /\
            (lo <= String.length p)%nat /\
            match hi with Some h => (String.length p <= h)%nat | None => True end.
Proof. intros H. inversion H; subst. exists p. auto. Qed.

Lemma matches_grp_rep i cl lo hi g s c s' c' :
  matches (Grp i (Rep cl lo hi g)) s c s' c' ->
  exists p, s = p ++ s' /\ c' = (i, p) :: c /\
            str_forall (in_class cl) p = true /\ (lo <= String.length p)%nat.
Proof.
  intros H. inversion H as [| | | | | |? ? ? ? ? ? M]; subst.
  apply matches_rep in M. destruct M as [p [-> [-> [F [L _]]]]].
  exists p. rewrite consumed_app. auto.
Qed.

Lemma matches_octet s c s' c' :
  matches (upto3 CDigit) s c s' c' ->
  exists d, s = d ++ s' /\ c' = c /\ octet d = true.
Proof.
  intros H. apply matches_rep in H. destruct H as [d [-> [-> [F [L U]]]]].
  exists d. repeat split. unfold octet.
  apply andb_true_iff; split; [apply andb_true_iff; split|];
    [exact F | now apply Nat.leb_le | now apply Nat.leb_le].
Qed.

Lemma matches_quad s c s' c' :
  matches (Grp 1 dotted_quad) s c s' c' ->
  exists d1 d2 d3 d4,
    octet d1 = true /\ octet d2 = true /\ octet d3 = true /\ octet d4 = true /\
    s = dotted d1 d2 d3 d4 ++ s' /\ c' = (1%nat, dotted d1 d2 d3 d4) :: c.
Proof.
  intros H. inversion H as [| | | | | |? ? ? ? ? ? M]; subst.
  unfold dotted_quad in M.
  apply matches_cat_inv in M. destruct M as [? [? [A1 M]]].
  apply matches_cat_inv in M. destruct M as [? [? [L1 M]]].
  apply matches_cat_inv in M. destruct M as [? [? [A2 M]]].
  apply matches_cat_inv in M. destruct M as [? [? [L2 M]]].
  apply matches_cat_inv in M. destruct M as [? [? [A3 M]]].
  apply matches_cat_inv in M. destruct M as [? [? [L3 M]]].
  apply matches_cat_inv in M. destruct M as [? [? [A4 M]]].
  inversion M; subst; clear M.
  apply matches_octet in A1, A2, A3, A4.
  apply matches_lit in L1, L2, L3.
  destruct A1 as [d1 [? [? O1]]], A2 as [d2 [? [? O2]]],
           A3 as [d3 [? [? O3]]], A4 as [d4 [? [? O4]]].
  destruct L1 as [? ?], L2 as [? ?], L3 as [? ?]. subst.
  assert (E : d1 ++ "." ++ d2 ++ "." ++ d3 ++ "." ++ d4 ++ s'
              = dotted d1 d2 d3 d4 ++ s').
  { unfold dotted. simpl. rewrite !str_app_assoc. simpl.
    rewrite !str_app_assoc. simpl. rewrite !str_app_assoc. reflexivity. }
  exists d1, d2, d3, d4. repeat split; try assumption.
  rewrite E. now rewrite consumed_app.
Qed.

Ltac pieces :=
  repeat match goal with
         | H : matches (Grp 1 dotted_quad) _ _ _ _ |- _ =>
             apply matches_quad in H;
             destruct H as [qa [qb [qc [qd [? [? [? [? [? ?]]]]]]]]]
         | H : matches (Grp _ (Rep _ _ _ _)) _ _ _ _ |- _ =>
             apply matches_grp_rep in H; destruct H as [? [? [? [? ?]]]]
         | H : matches (Rep _ _ _ _) _ _ _ _ |- _ =>
             apply matches_rep in H; destruct H as [run [? [? [? [? ?]]]]]
         | H : matches (Atom (CLit DQ)) _ _ _ _ |- _ =>
             apply matches_dq in H; destruct H as [? ?]
         | H : matches (lit _) _ _ _ _ |- _ =>
             apply matches_lit in H; destruct H as [? ?]
         | H : matches Eps _ _ _ _ |- _ => inversion H; subst; clear H
         end.


Ltac norm_app :=
  unfold dotted;
  repeat first [rewrite str_app_assoc | progress cbn [append]]; reflexivity.

Lemma nonempty_length p : (1 <= String.length p)%nat -> negb (is_empty p) = true.
Proof. destruct p; simpl; [lia | reflexivity]. Qed.

Lemma nginx_anatomy line ip ts req st b ref ua :
  re_match nginx_re line =
    Some [Some ip; Some ts; Some req; Some st; Some b; Some ref; Some ua] ->
  exists d1 d2 d3 d4 user rest,
    ip = dotted d1 d2 d3 d4 /\
    line = combined_line ip user ts req st b ref ua rest /\
    octet d1 = true /\ octet d2 = true /\ octet d3 = true /\ octet d4 = true /\
    no_newline user = true /\ no_newline ts = true /\ no_newline req = true /\
    no_newline ref = true /\ no_newline ua = true /\
    number_text st = true /\ number_text b = true.
Proof.
  intros H. apply re_match_sound in H. destruct H as [s' [caps' [M E]]].
  unfold nginx_re in M.
  split_cat M. unfold star_lazy, star, plus in *. pieces.
  subst. simpl in E. injection E as -> -> -> -> -> -> ->.
  exists qa, qb, qc, qd, run, s'. split; [reflexivity|]. split.
  { unfold combined_line, quoted, str1. norm_app. }
  repeat split; try assumption.
  - unfold number_text. apply andb_true_iff. split; [assumption|].
    now apply nonempty_length.
  - unfold number_text. apply andb_true_iff. split; [assumption|].
    now apply nonempty_length.
Qed.


(** ** Well-formed lines of the extended format *)

Lemma match_some {A} (o d : option A) x :
  o = Some x -> match o with Some y => Some y | None => d end = Some x.
Proof. now intros ->. Qed.

Lemma rmatch_lit3 {A} a b c t caps (k : string -> captures -> option A) :
  rmatch (lit (String a (String b (String c EmptyString))))
    (String a (String b (String c t))) caps k = k t caps.
Proof. simpl. now rewrite !Ascii.eqb_refl. Qed.

Lemma rmatch_grp_greedy {A} i c lo hi p t caps
    (k : string -> captures -> option A) x :
  str_forall (in_class c) p = true ->
  (lo <= String.length p)%nat ->
  match hi with Some h => (String.length p <= h)%nat | None => True end ->
  head_not (in_class c) t = true ->
  k t ((i, p) :: caps) = Some x ->
  rmatch (Grp i (Rep c lo hi true)) (p ++ t) caps k = Some x.
Proof.
  intros Hp Hlo Hhi Ht Hk. cbn [rmatch].
  apply rep_greedy_hit; try assumption. now rewrite consumed_app.
Qed.

Lemma rmatch_grp_lazy_hit {A} i stop p t caps
    (k : string -> captures -> option A) x :
  free_of stop p = true ->
  Ascii.eqb stop LF = false ->
  (forall a u caps', Ascii.eqb a stop = false -> k (String a u) caps' = None) ->
  k (String stop t) ((i, p) :: caps) = Some x ->
  rmatch (Grp i (star_lazy CAny)) (p ++ String stop t) caps k = Some x.
Proof.
  intros Hp Hs Hk Hx. rewrite rmatch_grp_lazy; try assumption. now rewrite Hx.
Qed.


Lemma rep_greedy_none {A} c (k : string -> option A) s :
  all_suffixes (fun u => k u = None) s -> rep c 0 None true s k = None.
Proof.
  induction s as [|a s IH]; simpl; intros [H0 H]; [exact H0|].
  destruct (in_class c a); simpl; [rewrite (IH H); exact H0 | exact H0].
Qed.

(** A greedy run backs up to the last place where the rest matches. *)
Lemma rep_greedy_last {A} c (k : string -> option A) x p a t :
  str_forall (in_class c) p = true ->
  all_suffixes (fun u => k u = None) t ->
  k (String a t) = Some x ->
  rep c 0 None true (p ++ String a t) k = Some x.
Proof.
  intros Hp Ht Hk. induction p as [|b p IH].
  - simpl. destruct (in_class c a); simpl; [|exact Hk].
    rewrite (rep_greedy_none c k t Ht). exact Hk.
  - simpl in Hp. apply andb_true_iff in Hp. destruct Hp as [Hb Hp].
    simpl. rewrite Hb. simpl. now rewrite (IH Hp).
Qed.

Lemma open_bracket_needed {A} rs s caps (k : string -> captures -> option A) :
  count_char "[" s = O -> rmatch (cat (lit " [" :: rs)) s caps k = None.
Proof.
  intros H. destruct s as [|a [|b s]]; simpl; try reflexivity.
  - destruct (Ascii.eqb a " "); reflexivity.
  - destruct (Ascii.eqb a " "); [|reflexivity].
    simpl in H. destruct (Ascii.eqb b "["); [|reflexivity].
    destruct (Ascii.eqb a "["); simpl in H; discriminate.
Qed.

Lemma digits_count x s :
  is_digit x = false -> str_forall is_digit s = true -> count_char x s = O.
Proof. apply count_char_none. Qed.

(** What follows the user name in a line of the extended format, from
    the opening bracket of the timestamp on. *)
Lemma combined_line_norm ip user ts req st b ref ua rest :
  combined_line ip user ts req st b ref ua rest =
  ip ++ (" - " ++ (user ++ (" [" ++ (ts ++ ("] " ++ (String DQ (req ++
    (String DQ (" " ++ (st ++ (" " ++ (b ++ (" " ++ (String DQ (ref ++
    (String DQ (" " ++ (String DQ (ua ++ (String DQ
    rest)))))))))))))))))))).
Proof. unfold combined_line, quoted, str1. norm_app. Qed.

Lemma nginx_hit {A} d1 d2 d3 d4 user ts req st b ref ua rest
    (k : string -> captures -> option A) x :
  let ip := dotted d1 d2 d3 d4 in
  octet d1 = true -> octet d2 = true -> octet d3 = true -> octet d4 = true ->
  no_newline user = true ->
  free_of "]" ts = true -> free_of DQ req = true ->
  number_text st = true -> number_text b = true ->
  free_of DQ ref = true -> free_of DQ ua = true ->
  count_char "[" (ts ++ req ++ ref ++ ua ++ rest) = O ->
  k rest [(7%nat, ua); (6%nat, ref); (5%nat, b); (4%nat, st); (3%nat, req);
          (2%nat, ts); (1%nat, ip)] = Some x ->
  rmatch nginx_re (combined_line ip user ts req st b ref ua rest) [] k = Some x.
Proof.
  intros ip O1 O2 O3 O4 Hu Hts Hreq Hst Hb Href Hua Hc Hk.
  rewrite !count_char_app in Hc.
  rewrite combined_line_norm. cbn [append]. unfold ip, nginx_re.
  rewrite rmatch_cat_cons, rmatch_ip; try assumption; try reflexivity;
    [|intros a u caps' Ha; rewrite rmatch_cat_cons; apply rmatch_lit_head;
      now apply (eqb_other is_digit)].
  rewrite rmatch_cat_cons, rmatch_lit3, rmatch_cat_cons.
  unfold star. cbn [rmatch].
  apply rep_greedy_last; [exact Hu | |].
  { cbn [all_suffixes]. split.
    { rewrite rmatch_cat_cons. now apply rmatch_lit_head. }
    apply (all_suffixes_impl (fun u => (count_char "[" u <= 0)%nat)).
    { intros u Hu0. cbv beta. apply open_bracket_needed. lia. }
    apply all_suffixes_count.
    repeat (rewrite ?count_char_app; cbn [count_char Ascii.eqb Bool.eqb]).
    rewrite (digits_count "[" st), (digits_count "[" b);
      [ change (Ascii.eqb DQ "[") with false; cbv iota; lia
      | reflexivity | now apply number_text_digits
      | reflexivity | now apply number_text_digits ]. }
  rewrite rmatch_cat_cons, rmatch_lit2, rmatch_cat_cons.
  apply rmatch_grp_lazy_hit; [assumption | reflexivity | |].
  { intros a u caps' Ha. rewrite rmatch_cat_cons. now apply rmatch_lit_head. }
  rewrite rmatch_cat_cons, rmatch_lit2, rmatch_cat_cons, rmatch_dq, rmatch_cat_cons.
  apply rmatch_grp_lazy_hit; [assumption | reflexivity | |].
  { intros a u caps' Ha. rewrite rmatch_cat_cons. now apply rmatch_atom_head. }
  rewrite rmatch_cat_cons, rmatch_dq, rmatch_cat_cons, rmatch_lit1, rmatch_cat_cons.
  apply rmatch_grp_greedy;
    [now apply number_text_digits | now apply number_text_length | exact I
     | reflexivity |].
  rewrite rmatch_cat_cons, rmatch_lit1, rmatch_cat_cons.
  apply rmatch_grp_greedy;
    [now apply number_text_digits | now apply number_text_length | exact I
     | reflexivity |].
  rewrite rmatch_cat_cons, rmatch_lit1, rmatch_cat_cons, rmatch_dq, rmatch_cat_cons.
  apply rmatch_grp_lazy_hit; [assumption | reflexivity | |].
  { intros a u caps' Ha. rewrite rmatch_cat_cons. now apply rmatch_atom_head. }
  rewrite rmatch_cat_cons, rmatch_dq, rmatch_cat_cons, rmatch_lit1, rmatch_cat_cons,
    rmatch_dq, rmatch_cat_cons.
  apply rmatch_grp_lazy_hit; [assumption | reflexivity | |].
  { intros a u caps' Ha. rewrite rmatch_cat_cons. now apply rmatch_atom_head. }
  rewrite rmatch_cat_cons, rmatch_dq. exact Hk.
Qed.


(** ** Bytes sent *)

Lemma re_match_apache_hit d1 d2 d3 d4 ts req st rest groups :
  octet d1 = true -> octet d2 = true -> octet d3 = true -> octet d4 = true ->
  free_of "]" ts = true -> free_of DQ req = true -> number_text st = true ->
  rmatch bytes_re rest (caps_upto 4 (dotted d1 d2 d3 d4) ts req st)
    (fun _ caps => Some (map (fun i => group i caps) (seq 1 5))) = Some groups ->
  re_match apache_re (clf_line (dotted d1 d2 d3 d4) ts req st rest) = Some groups.
Proof.
  intros. unfold re_match. now apply apache_hit.
Qed.

Lemma re_match_apache_dash d1 d2 d3 d4 ts req st tail :
  octet d1 = true -> octet d2 = true -> octet d3 = true -> octet d4 = true ->
  free_of "]" ts = true -> free_of DQ req = true -> number_text st = true ->
  re_match apache_re (clf_line (dotted d1 d2 d3 d4) ts req st ("-" ++ tail)) =
  Some [Some (dotted d1 d2 d3 d4); Some ts; Some req; Some st; Some "-"].
Proof.
  intros. apply re_match_apache_hit; try assumption.
  change ("-" ++ tail) with (String "-" tail). now rewrite rmatch_bytes_dash.
Qed.

Lemma re_match_apache_digits d1 d2 d3 d4 ts req st b tail :
  octet d1 = true -> octet d2 = true -> octet d3 = true -> octet d4 = true ->
  free_of "]" ts = true -> free_of DQ req = true -> number_text st = true ->
  number_text b = true -> head_not is_digit tail = true ->
  re_match apache_re (clf_line (dotted d1 d2 d3 d4) ts req st (b ++ tail)) =
  Some [Some (dotted d1 d2 d3 d4); Some ts; Some req; Some st; Some b].
Proof.
  intros. apply re_match_apache_hit; try assumption.
  now apply rmatch_bytes_digits.
Qed.

Lemma re_match_apache_miss d1 d2 d3 d4 ts req st rest :
  octet d1 = true -> octet d2 = true -> octet d3 = true -> octet d4 = true ->
  free_of "]" ts = true -> free_of DQ req = true -> number_text st = true ->
  head_not digit_or_dash rest = true -> count_char DQ rest = O ->
  re_match apache_re (clf_line (dotted d1 d2 d3 d4) ts req st rest) = None.
Proof.
  intros. unfold re_match. apply apache_miss; try assumption.
  now apply rmatch_bytes_none.
Qed.

(** The fields read back from a record of the request shape. *)
Lemma field_request_entry stamp ip req st bytes extra line k :
  extra = [] \/
  (exists a b, extra = [("referrer", VStr a); ("user_agent", VStr b)]) ->
  In k ["timestamp"; "raw_entry"; "bytes_sent"] ->
  field (request_entry stamp ip req st bytes extra line) k =
  if String.eqb k "timestamp" then Some stamp
  else if String.eqb k "bytes_sent" then Some (VInt bytes)
  else Some (VStr line).
Proof.
  intros E Hk. unfold request_entry.
  destruct (parse_request req) as [[m p] v].
  destruct Hk as [<-|[<-|[<-|[]]]];
    destruct E as [->|[a [b ->]]]; reflexivity.
Qed.

(** In the extended format the bytes-sent position is matched by digits
    only: the [bytes_sent] of a record is the number the fifth group
    spells. *)
Lemma nginx_bytes_are_digits strptime line e :
  parse_nginx strptime line = Ok (Some e) ->
  exists groups b,
    re_match nginx_re line = Some groups /\
    nth_error groups 4 = Some (Some b) /\ number_text b = true /\
    field e "bytes_sent" = Some (VInt (digits_val 0 b)).
Proof.
  intros H. destruct (re_match nginx_re line) as [groups|] eqn:M.
  - destruct (nginx_groups _ _ M)
      as [ip [ts [req [st [b [ref [ua [-> [Hst Hb]]]]]]]]].
    rewrite (parse_nginx_cases strptime _ _ _ _ _ _ _ _ M Hst Hb) in H.
    destruct (fits st && fits b)%bool; [|discriminate].
    injection H as <-. eexists; exists b.
    repeat split; [assumption|].
    rewrite field_request_entry; simpl; eauto.
  - unfold parse_nginx in H. rewrite M in H. discriminate.
Qed.

Lemma ones_digits n : str_forall is_digit (ones n) = true.
Proof. induction n as [|n IH]; simpl; [reflexivity | exact IH]. Qed.

Lemma ones_length n : String.length (ones n) = n.
Proof. induction n as [|n IH]; simpl; [reflexivity | now rewrite IH]. Qed.

Lemma long_number_text : number_text long_number = true.
Proof.
  unfold number_text, long_number. now rewrite ones_digits.
Qed.

Lemma long_number_fits : fits long_number = false.
Proof.
  unfold fits, long_number. rewrite ones_length.
  apply Z.leb_gt. unfold int_max_str_digits. lia.
Qed.

Lemma re_match_nginx_line d1 d2 d3 d4 user ts req st b ref ua rest :
  octet d1 = true -> octet d2 = true -> octet d3 = true -> octet d4 = true ->
  no_newline user = true ->
  free_of "]" ts = true -> free_of DQ req = true ->
  number_text st = true -> number_text b = true ->
  free_of DQ ref = true -> free_of DQ ua = true ->
  count_char "[" (ts ++ req ++ ref ++ ua ++ rest) = O ->
  re_match nginx_re
    (combined_line (dotted d1 d2 d3 d4) user ts req st b ref ua rest) =
  Some [Some (dotted d1 d2 d3 d4); Some ts; Some req; Some st; Some b;
        Some ref; Some ua].
Proof.
  intros. unfold re_match. apply nginx_hit; try assumption. reflexivity.
Qed.

Lemma not_dash b : number_text b = true -> String.eqb b "-" = false.
Proof.
  intros H. destruct (String.eqb_spec b "-") as [->|]; [discriminate|reflexivity].
Qed.

(** C1 (amended).  On a basic-format line made of a dotted quad, the
    text [ - - ], a bracketed timestamp free of closing brackets, a quoted
    request free of double quotes, a status in digits and a remainder:
    when the remainder begins with the marker [-], extraction yields a
    record whose [bytes_sent] is 0; when it begins with a run of digits,
    [bytes_sent] is the number the run spells; when it begins with anything
    else (or is empty) and holds no double quote, no record is produced.
    On an extended-format line with the same parts, a user name, a quoted
    referrer and a quoted client agent, a run of digits in the bytes-sent
    position gives the number it spells, and the extended extractor yields
    a record only from a line with a run of digits in that position, never
    from the marker.  All this holds for a status and a byte count of at
    most [int_max_str_digits] digits each; with more digits in either,
    extraction raises [ValueError]. *)
Theorem bytes_sent_reading strptime d1 d2 d3 d4 ts req st :
  octet d1 = true -> octet d2 = true -> octet d3 = true -> octet d4 = true ->
  free_of "]" ts = true -> free_of DQ req = true -> number_text st = true ->
  (forall tail,
     fits st = true ->
     exists e,
       parse_apache strptime
         (clf_line (dotted d1 d2 d3 d4) ts req st ("-" ++ tail)) = Ok (Some e) /\
       field e "bytes_sent" = Some (VInt 0)) /\
  (forall b tail,
     number_text b = true -> head_not is_digit tail = true ->
     fits st = true -> fits b = true ->
     exists e,
       parse_apache strptime
         (clf_line (dotted d1 d2 d3 d4) ts req st (b ++ tail)) = Ok (Some e) /\
       field e "bytes_sent" = Some (VInt (digits_val 0 b))) /\
  (forall rest,
     head_not digit_or_dash rest = true -> count_char DQ rest = O ->
     parse_apache strptime (clf_line (dotted d1 d2 d3 d4) ts req st rest)
     = Ok None) /\
  (forall b tail,
     b = "-" \/ (number_text b = true /\ head_not is_digit tail = true) ->
     fits st = false \/ (number_text b = true /\ fits b = false) ->
     parse_apache strptime (clf_line (dotted d1 d2 d3 d4) ts req st (b ++ tail))
     = Raise ValueError) /\
  (forall user b ref ua rest,
     no_newline user = true -> number_text b = true ->
     free_of DQ ref = true -> free_of DQ ua = true ->
     count_char "[" (ts ++ req ++ ref ++ ua ++ rest) = O ->
     (fits st = true -> fits b = true ->
      exists e,
        parse_nginx strptime
          (combined_line (dotted d1 d2 d3 d4) user ts req st b ref ua rest)
        = Ok (Some e) /\
        field e "bytes_sent" = Some (VInt (digits_val 0 b))) /\
     (fits st = false \/ fits b = false ->
      parse_nginx strptime
        (combined_line (dotted d1 d2 d3 d4) user ts req st b ref ua rest)
      = Raise ValueError)) /\
  (forall line e,
     parse_nginx strptime line = Ok (Some e) ->
     exists ip user ts' req' st' b ref ua rest,
       line = combined_line ip user ts' req' st' b ref ua rest /\
       number_text b = true /\ fits b = true /\
       field e "bytes_sent" = Some (VInt (digits_val 0 b))).
Proof.
  intros O1 O2 O3 O4 Hts Hreq Hst.
  split; [|split; [|split; [|split; [|split]]]].
  - intros tail Fst.
    pose proof (re_match_apache_dash d1 d2 d3 d4 ts req st tail
                  O1 O2 O3 O4 Hts Hreq Hst) as M.
    rewrite (parse_apache_groups strptime _ _ _ _ _ _ M Hst (or_introl eq_refl)
               Fst (or_introl eq_refl)).
    eexists. split; [reflexivity|].
    rewrite field_request_entry; simpl; auto.
  - intros b tail Hb Ht Fst Fb.
    pose proof (re_match_apache_digits d1 d2 d3 d4 ts req st b tail
                  O1 O2 O3 O4 Hts Hreq Hst Hb Ht) as M.
    rewrite (parse_apache_groups strptime _ _ _ _ _ _ M Hst (or_intror Hb)
               Fst (or_intror Fb)).
    eexists. split; [reflexivity|].
    rewrite field_request_entry; simpl; auto.
    unfold bytes_value. now rewrite (not_dash b Hb).
  - intros rest Hr Hc. unfold parse_apache.
    now rewrite (re_match_apache_miss d1 d2 d3 d4 ts req st rest).
  - intros b tail Hb F.
    assert (M : re_match apache_re
                  (clf_line (dotted d1 d2 d3 d4) ts req st (b ++ tail)) =
                Some [Some (dotted d1 d2 d3 d4); Some ts; Some req; Some st;
                      Some b]).
    { destruct Hb as [->|[Hb Ht]].
      - now apply re_match_apache_dash.
      - now apply re_match_apache_digits. }
    rewrite (parse_apache_cases strptime _ _ _ _ _ _ M Hst
               ltac:(destruct Hb as [Hb|[Hb _]]; [now left | now right])).
    destruct F as [->|[Hb' Fb]]; [reflexivity|].
    rewrite (not_dash b Hb'), Fb. now rewrite andb_false_r.
  - intros user b ref ua rest Hu Hb Href Hua Hc.
    pose proof (re_match_nginx_line d1 d2 d3 d4 user ts req st b ref ua rest
                  O1 O2 O3 O4 Hu Hts Hreq Hst Hb Href Hua Hc) as M.
    split.
    + intros Fst Fb.
      rewrite (parse_nginx_groups strptime _ _ _ _ _ _ _ _ M Hst Hb Fst Fb).
      eexists. split; [reflexivity|].
      rewrite field_request_entry; simpl; eauto.
    + intros F. rewrite (parse_nginx_cases strptime _ _ _ _ _ _ _ _ M Hst Hb).
      destruct F as [->| ->]; [reflexivity | now rewrite andb_false_r].
  - intros line e H. destruct (re_match nginx_re line) as [groups|] eqn:M;
      [|unfold parse_nginx in H; rewrite M in H; discriminate].
    destruct (nginx_groups _ _ M)
      as [ip [ts' [req' [st' [b [ref [ua [-> [Hst' Hb]]]]]]]]].
    rewrite (parse_nginx_cases strptime _ _ _ _ _ _ _ _ M Hst' Hb) in H.
    destruct (fits st') eqn:Fst; [|discriminate].
    destruct (fits b) eqn:Fb; [|discriminate].
    injection H as <-.
    destruct (nginx_anatomy _ _ _ _ _ _ _ _ M)
      as [q1 [q2 [q3 [q4 [user [rest [_ [L _]]]]]]]].
    exists ip, user, ts', req', st', b, ref, ua, rest.
    repeat split; try assumption.
    rewrite field_request_entry; simpl; eauto.
Qed.

Lemma bytes_sent_reading_witness :
  octet "1" = true /\ octet "2" = true /\ octet "3" = true /\ octet "4" = true /\
  free_of "]" sample_stamp = true /\ free_of DQ sample_request = true /\
  number_text "200" = true /\ fits "200" = true /\
  exists e, parse_apache strptime_ref basic_dash_line = Ok (Some e) /\
            field e "bytes_sent" = Some (VInt 0).
Proof.
  repeat (split; [reflexivity|]).
  exact (proj1 (bytes_sent_reading strptime_ref "1" "2" "3" "4" sample_stamp
                  sample_request "200" eq_refl eq_refl eq_refl eq_refl eq_refl
                  eq_refl eq_refl) EmptyString eq_refl).
Defined.

(** An extended-format line with the marker in the bytes-sent position
    yields no record, where the same line with a number yields one; a
    basic-format line whose bytes-sent text is [12abc] yields a record. *)
Lemma bytes_sent_claim_fails :
  (exists e, parse_nginx strptime_ref (extended_with "2326") = Ok (Some e) /\
             field e "bytes_sent" = Some (VInt 2326)) /\
  parse_nginx strptime_ref (extended_with "-") = Ok None /\
  py_int "12abc" = Raise ValueError /\
  (exists e, parse_apache strptime_ref (basic_with "12abc") = Ok (Some e) /\
             field e "bytes_sent" = Some (VInt 12)).
Proof.
  split; [eexists; split; vm_compute; reflexivity|].
  split; [vm_compute; reflexivity|]. split; [vm_compute; reflexivity|].
  eexists; split; vm_compute; reflexivity.
Qed.

(** ** Detection *)

Lemma detect_in_spec ps line :
  (detect_in ps line = None <->
   Forall (fun p => re_match (snd p) line = None) ps) /\
  (forall name,
     detect_in ps line = Some name <->
     exists before re after,
       ps = (before ++ (name, re) :: after)%list /\
       re_match re line <> None /\
       Forall (fun p => re_match (snd p) line = None) before).
Proof.
  induction ps as [|[n r] ps [IHn IHs]]; simpl.
  - split; [split; [constructor | reflexivity]|].
    intros name. split; [discriminate|].
    intros [before [re [after [E _]]]]. destruct before; discriminate.
  - destruct (re_match r line) as [g|] eqn:M.
    + split.
      * split; [discriminate|]. intros F. inversion F as [|? ? H0 _]; subst.
        simpl in H0. congruence.
      * intros name. split.
        -- intros [= <-]. exists [], r, ps.
           repeat split; [congruence | constructor].
        -- intros [before [re [after [E [Hre F]]]]].
           destruct before as [|p before]; simpl in E.
           ++ now injection E as <- _ _.
           ++ injection E as <- _. inversion F as [|? ? H0 _]; subst.
              simpl in H0. congruence.
    + split.
      * rewrite IHn. split.
        -- intros F. constructor; assumption.
        -- intros F. now inversion F.
      * intros name. rewrite IHs. split.
        -- intros [before [re [after [-> [Hre F]]]]].
           exists ((n, r) :: before), re, after.
           repeat split; [assumption | constructor; assumption].
        -- intros [before [re [after [E [Hre F]]]]].
           destruct before as [|p before]; simpl in E.
           ++ injection E as _ <- _. congruence.
           ++ injection E as <- ->. inversion F; subst.
              exists before, re, after. repeat split; assumption.
Qed.

(** C5.  [detect_format] is a function of the sample alone; it returns
    the first format, in the registration order apache, nginx, app, whose
    pattern matches the sample (every earlier pattern failing on it), and
    [None] exactly when no pattern matches. *)
Theorem detect_first_registered line :
  map fst patterns = ["apache"; "nginx"; "app"] /\
  (forall r1 r2, detect_format line = r1 -> detect_format line = r2 -> r1 = r2) /\
  (forall name,
     detect_format line = Some name <->
     exists before re after,
       patterns = (before ++ (name, re) :: after)%list /\
       re_match re line <> None /\
       Forall (fun p => re_match (snd p) line = None) before) /\
  (detect_format line = None <->
   Forall (fun p => re_match (snd p) line = None) patterns).
Proof.
  split; [reflexivity|]. split; [congruence|].
  unfold detect_format. destruct (detect_in_spec patterns line) as [Hn Hs].
  split; assumption.
Qed.

(** C9.  There is a line of the extended format (the extended extractor
    reads it, referrer and client agent included) which the basic pattern
    also matches and which [detect_format] therefore classifies as apache;
    parsing a file made of that line with no format supplied yields one
    record that has neither [referrer] nor [user_agent]. *)
Theorem extended_line_detected_as_basic strptime :
  exists line,
    (exists e, parse_nginx strptime line = Ok (Some e) /\
               has_field e "referrer" = true /\
               has_field e "user_agent" = true) /\
    re_match apache_re line <> None /\
    detect_format line = Some "apache" /\
    exists e, parse_log strptime (line ++ str1 LF) None None = Ok [e] /\
              has_field e "referrer" = false /\
              has_field e "user_agent" = false.
Proof.
  exists extended_line. split; [|split; [|split]].
  - eexists. split; [vm_compute; reflexivity|]. split; reflexivity.
  - vm_compute. discriminate.
  - vm_compute. reflexivity.
  - eexists. split; [vm_compute; reflexivity|]. split; reflexivity.
Qed.

(** ** The file pass *)

Lemma choose_format_given content f :
  is_empty f = false -> choose_format content (Some f) = Ok f.
Proof. intros H. unfold choose_format, format_given. now rewrite H. Qed.

(** A run with the format [f]: [ValueError] when one of the lines worked
    on is oversized, the records of these lines otherwise. *)
Lemma parse_log_spec strptime content log_format max_lines f :
  choose_format content log_format = Ok f ->
  parse_log strptime content log_format max_lines =
  let ls := processed max_lines 0 (nonblank (file_lines content)) in
  if existsb (oversized f) ls then Raise ValueError
  else Ok (records_of strptime f ls).
Proof.
  intros H. unfold parse_log. rewrite H. cbn [bind].
  now rewrite parse_loop_spec.
Qed.

Lemma records_of_length strptime f ls :
  (length (records_of strptime f ls) <= length ls)%nat.
Proof.
  induction ls as [|l ls IH]; simpl; [lia|].
  destruct (extract strptime f l); simpl; lia.
Qed.

Lemma file_lines_first l rest : forall cur,
  str_forall (not_chars LF CR) l = true ->
  file_lines_aux (l ++ String LF rest) cur =
  (cur ++ l ++ str1 LF) :: file_lines_aux rest EmptyString.
Proof.
  induction l as [|a l IH]; intros cur H; simpl.
  - reflexivity.
  - simpl in H. apply andb_true_iff in H. destruct H as [Ha Hl].
    unfold not_chars in Ha. apply andb_true_iff in Ha. destruct Ha as [H1 H2].
    apply negb_true_iff in H1, H2. rewrite H1, H2.
    rewrite (IH _ Hl). rewrite str_app_assoc. reflexivity.
Qed.

(** C2 (amended).  When no format is supplied ([None] or the empty text),
    [parse_log] runs detection on the first line the file yields, stripped,
    whether or not that line is blank, and on nothing else: what follows
    the first line terminator plays no part.  When detection fails there,
    the call raises [ValueError] and returns no records; otherwise the
    loop runs over the whole file with the detected format: it returns
    the records of the non-blank lines it works on, unless one of them is
    oversized, which raises [ValueError]. *)
Theorem detection_reads_first_line strptime content log_format max_lines :
  format_given log_format = None ->
  (detect_format (strip (readline content)) = None ->
   parse_log strptime content log_format max_lines = Raise ValueError) /\
  (forall f,
     detect_format (strip (readline content)) = Some f ->
     parse_log strptime content log_format max_lines =
     let ls := processed max_lines 0 (nonblank (file_lines content)) in
     if existsb (oversized f) ls then Raise ValueError
     else Ok (records_of strptime f ls)) /\
  (forall l rest,
     str_forall (not_chars LF CR) l = true ->
     content = l ++ String LF rest ->
     readline content = l ++ str1 LF).
Proof.
  intros H. split; [|split].
  - intros D. unfold parse_log, choose_format. now rewrite H, D.
  - intros f D. apply parse_log_spec. unfold choose_format. now rewrite H, D.
  - intros l rest Hl ->. unfold readline, file_lines.
    now rewrite file_lines_first.
Qed.

Lemma detection_reads_first_line_witness :
  format_given (Some EmptyString) = None /\
  detect_format (strip (readline blank_first_file)) = None /\
  parse_log strptime_ref blank_first_file (Some EmptyString) None
  = Raise ValueError.
Proof.
  split; [reflexivity|]. split; [reflexivity|].
  exact (proj1 (detection_reads_first_line strptime_ref blank_first_file
                  (Some EmptyString) None eq_refl) eq_refl).
Defined.

(** The first non-blank line of this file is detected as the application
    format, yet parsing it with no format supplied raises. *)
Lemma blank_first_line_undetected :
  first_nonblank_line blank_first_file = Some app_line /\
  detect_format app_line = Some "app" /\
  parse_log strptime_ref blank_first_file None None = Raise ValueError.
Proof. repeat split; vm_compute; reflexivity. Qed.

(** C4 (amended).  With a format chosen and a cap [k] with [0 < k < N],
    [N] the number of non-blank lines of the file, [parse_log] works on
    exactly the first [k] non-blank lines: blank lines are skipped without
    counting and later lines play no part.  When none of these [k] lines
    is oversized it returns their records, in file order, at most [k] of
    them; when one is, it raises [ValueError] and returns nothing. *)
Theorem max_lines_cap strptime content log_format f k :
  choose_format content log_format = Ok f ->
  0 < k -> k < Z.of_nat (length (nonblank (file_lines content))) ->
  parse_log strptime content log_format (Some k) =
    (if existsb (oversized f) (capped k content) then Raise ValueError
     else Ok (records_of strptime f (capped k content))) /\
  Z.of_nat (length (capped k content)) = k /\
  (length (records_of strptime f (capped k content)) <= Z.to_nat k)%nat.
Proof.
  intros Hf Hk HN.
  assert (L : length (capped k content) = Z.to_nat k)
    by (unfold capped; rewrite length_firstn; lia).
  split; [|split].
  - rewrite (parse_log_spec strptime _ _ _ f Hf). unfold processed, capped.
    destruct (Z.eqb_spec k 0); [lia|].
    replace (Z.max 1 (k - 0)) with k by lia. reflexivity.
  - rewrite L. lia.
  - rewrite <- L. apply records_of_length.
Qed.

Lemma max_lines_cap_witness :
  choose_format basic_file None = Ok "apache" /\
  0 < 2 /\ 2 < Z.of_nat (length (nonblank (file_lines basic_file))) /\
  existsb (oversized "apache") (capped 2 basic_file) = false /\
  parse_log strptime_ref basic_file None (Some 2) =
    (if existsb (oversized "apache") (capped 2 basic_file)
     then Raise ValueError
     else Ok (records_of strptime_ref "apache" (capped 2 basic_file))) /\
  Z.of_nat (length (capped 2 basic_file)) = 2 /\
  (length (records_of strptime_ref "apache" (capped 2 basic_file))
   <= Z.to_nat 2)%nat.
Proof.
  split; [reflexivity|]. split; [lia|]. split; [vm_compute; reflexivity|].
  split; [vm_compute; reflexivity|].
  exact (max_lines_cap strptime_ref basic_file None "apache" 2
           eq_refl eq_refl eq_refl).
Defined.

(** A file of three basic-format lines, the second with a byte count of
    4301 digits.  With a cap of two the run raises and returns nothing,
    where a cap of one returns the record of the first line. *)
Lemma long_number_aborts_run :
  choose_format oversized_file (Some "apache") = Ok "apache" /\
  Z.of_nat (length (nonblank (file_lines oversized_file))) = 3 /\
  capped 2 oversized_file = [basic_dash_line; oversized_line] /\
  parse_log strptime_ref oversized_file (Some "apache") (Some 2)
  = Raise ValueError /\
  exists e,
    parse_log strptime_ref oversized_file (Some "apache") (Some 1) = Ok [e].
Proof.
  split; [reflexivity|]. split; [vm_compute; reflexivity|].
  split; [vm_compute; reflexivity|].
  split; [vm_compute; reflexivity|].
  eexists. vm_compute. reflexivity.
Qed.

(** ** Timestamps and the raw line *)

Lemma first_layout_none strptime ts layouts :
  (forall l, In l layouts -> strptime ts l = None) ->
  first_layout strptime ts layouts = VStr ts.
Proof.
  induction layouts as [|l ls IH]; simpl; intros H; [reflexivity|].
  rewrite (H l (or_introl eq_refl)). apply IH. intros l' Hl'. apply H. now right.
Qed.

Lemma pattern_cases f re :
  dict_get String.eqb patterns f = Some re ->
  (f = "apache" /\ re = apache_re) \/ (f = "nginx" /\ re = nginx_re) \/
  (f = "app" /\ re = app_re).
Proof.
  unfold patterns. cbn [dict_get].
  destruct (String.eqb_spec f "apache") as [->|_]; [intros [= <-]; auto|].
  destruct (String.eqb_spec f "nginx") as [->|_]; [intros [= <-]; auto|].
  destruct (String.eqb_spec f "app") as [->|_]; [intros [= <-]; auto|].
  discriminate.
Qed.

Lemma sized_apache line ip ts req st b :
  re_match apache_re line = Some [Some ip; Some ts; Some req; Some st; Some b] ->
  oversized "apache" line = false ->
  fits st = true /\ (b = "-" \/ fits b = true).
Proof.
  intros M. unfold oversized.
  change (dict_get String.eqb patterns "apache") with (Some apache_re). cbv beta iota.
  rewrite M. unfold numbers_of.
  change (String.eqb "apache" "apache") with true. cbn [andb].
  destruct (String.eqb_spec b "-") as [->|_]; cbn [forallb];
    destruct (fits st); try destruct (fits b); simpl; intros H;
    try discriminate; auto.
Qed.

Lemma sized_nginx line ip ts req st b ref ua :
  re_match nginx_re line =
    Some [Some ip; Some ts; Some req; Some st; Some b; Some ref; Some ua] ->
  oversized "nginx" line = false ->
  fits st = true /\ fits b = true.
Proof.
  intros M. unfold oversized.
  change (dict_get String.eqb patterns "nginx") with (Some nginx_re). cbv beta iota.
  rewrite M. unfold numbers_of.
  change (String.eqb "nginx" "apache") with false. cbn [andb forallb].
  destruct (fits st); destruct (fits b); simpl; intros H;
    try discriminate; auto.
Qed.

Lemma app_never_oversized line : oversized "app" line = false.
Proof.
  unfold oversized.
  change (dict_get String.eqb patterns "app") with (Some app_re). cbv beta iota.
  destruct (re_match app_re line) as [groups|] eqn:M; [|reflexivity].
  destruct (app_groups _ _ M) as [ts [level [module [message ->]]]].
  reflexivity.
Qed.

Lemma matched_entry strptime f re line groups :
  dict_get String.eqb patterns f = Some re ->
  re_match re line = Some groups ->
  oversized f line = false ->
  exists ts e,
    nth_error groups (stamp_group f) = Some (Some ts) /\
    parse_entry strptime f line = Ok (Some e) /\
    field e "timestamp" = Some (first_layout strptime ts (layouts_of f)) /\
    field e "raw_entry" = Some (VStr line).
Proof.
  intros Hf M Hov.
  destruct (pattern_cases _ _ Hf) as [[-> ->]|[[-> ->]|[-> ->]]].
  - destruct (apache_groups _ _ M) as [ip [ts [req [st [b [-> [Hst Hb]]]]]]].
    destruct (sized_apache _ _ _ _ _ _ M Hov) as [Fst Fb].
    exists ts. eexists. split; [reflexivity|]. split.
    + unfold parse_entry. cbn [String.eqb Ascii.eqb Bool.eqb].
      apply (parse_apache_groups strptime _ _ _ _ _ _ M Hst Hb Fst Fb).
    + split; rewrite field_request_entry; simpl; auto.
  - destruct (nginx_groups _ _ M)
      as [ip [ts [req [st [b [ref [ua [-> [Hst Hb]]]]]]]]].
    destruct (sized_nginx _ _ _ _ _ _ _ _ M Hov) as [Fst Fb].
    exists ts. eexists. split; [reflexivity|]. split.
    + unfold parse_entry. cbn [String.eqb Ascii.eqb Bool.eqb].
      apply (parse_nginx_groups strptime _ _ _ _ _ _ _ _ M Hst Hb Fst Fb).
    + split; rewrite field_request_entry; simpl; eauto.
  - destruct (app_groups _ _ M) as [ts [level [module [message ->]]]].
    exists ts. eexists. split; [reflexivity|]. split.
    + unfold parse_entry. cbn [String.eqb Ascii.eqb Bool.eqb].
      apply (parse_app_groups strptime _ _ _ _ _ M).
    + split; reflexivity.
Qed.

(** C6 (amended).  For a line that matches the pattern of its format and
    is not oversized (no application line is), extraction returns a
    record and does not raise; its [timestamp] is what the layouts of the
    format give when tried in order (one layout for the request formats,
    a primary and a fallback for the application format), and when no
    layout parses the captured text the field holds that text unchanged.
    On an oversized line extraction raises [ValueError], whatever the
    timestamp. *)
Theorem timestamp_falls_back_to_text strptime f re line groups :
  dict_get String.eqb patterns f = Some re ->
  re_match re line = Some groups ->
  (oversized f line = false ->
   exists ts e,
     nth_error groups (stamp_group f) = Some (Some ts) /\
     parse_entry strptime f line = Ok (Some e) /\
     field e "timestamp" = Some (first_layout strptime ts (layouts_of f)) /\
     ((forall l, In l (layouts_of f) -> strptime ts l = None) ->
      field e "timestamp" = Some (VStr ts))) /\
  (oversized f line = true ->
   parse_entry strptime f line = Raise ValueError) /\
  (f = "app" -> oversized f line = false).
Proof.
  intros Hf M. split; [|split].
  - intros Hov.
    destruct (matched_entry strptime f re line groups Hf M Hov)
      as [ts [e [Hg [He [Ht _]]]]].
    exists ts, e. repeat split; try assumption.
    intros Hn. rewrite Ht. now rewrite first_layout_none.
  - intros Hov. now rewrite parse_entry_spec, Hov.
  - intros ->. apply app_never_oversized.
Qed.

Lemma timestamp_falls_back_to_text_witness :
  dict_get String.eqb patterns "app" = Some app_re /\
  re_match app_re odd_stamp_line
  = Some [Some "yesterday noon"; Some "WARN"; Some "db"; Some "slow query"] /\
  oversized "app" odd_stamp_line = false /\
  exists ts e,
    nth_error [Some "yesterday noon"; Some "WARN"; Some "db"; Some "slow query"]
      (stamp_group "app") = Some (Some ts) /\
    parse_entry strptime_ref "app" odd_stamp_line = Ok (Some e) /\
    field e "timestamp" = Some (first_layout strptime_ref ts (layouts_of "app")) /\
    ((forall l, In l (layouts_of "app") -> strptime_ref ts l = None) ->
     field e "timestamp" = Some (VStr ts)).
Proof.
  split; [reflexivity|]. split; [vm_compute; reflexivity|].
  split; [vm_compute; reflexivity|].
  exact (proj1 (timestamp_falls_back_to_text strptime_ref "app" app_re
                  odd_stamp_line _ eq_refl eq_refl) eq_refl).
Defined.

Lemma re_match_oversized_line :
  re_match apache_re oversized_line =
  Some [Some "1.2.3.4"; Some "yesterday noon"; Some sample_request;
        Some "200"; Some long_number].
Proof.
  unfold oversized_line.
  rewrite <- (str_app_nil_r long_number) at 1.
  apply (re_match_apache_digits "1" "2" "3" "4" "yesterday noon" sample_request
           "200" long_number EmptyString);
    first [apply long_number_text | reflexivity].
Qed.

Lemma oversized_line_raises strptime :
  parse_entry strptime "apache" oversized_line = Raise ValueError.
Proof.
  unfold parse_entry. cbn [String.eqb Ascii.eqb Bool.eqb].
  rewrite (parse_apache_cases strptime _ _ _ _ _ _ re_match_oversized_line
             eq_refl (or_intror long_number_text)).
  rewrite long_number_fits, (not_dash _ long_number_text).
  now rewrite andb_false_r.
Qed.

(** A basic-format line whose timestamp fits no layout and whose byte
    count has 4301 digits: the pattern matches it, yet no record is
    produced, the extractor raises. *)
Lemma long_number_no_record :
  strptime_ref "yesterday noon" clf_layout = None /\
  dict_get String.eqb patterns "apache" = Some apache_re /\
  re_match apache_re oversized_line =
    Some [Some "1.2.3.4"; Some "yesterday noon"; Some sample_request;
          Some "200"; Some long_number] /\
  String.length long_number = 4301%nat /\
  parse_entry strptime_ref "apache" oversized_line = Raise ValueError.
Proof.
  split; [reflexivity|]. split; [reflexivity|].
  split; [exact re_match_oversized_line|].
  split; [unfold long_number; rewrite ones_length; reflexivity|].
  apply oversized_line_raises.
Qed.

Lemma extract_raw_entry strptime f line e :
  extract strptime f line = Some e -> field e "raw_entry" = Some (VStr line).
Proof.
  unfold extract. intros H.
  destruct (parse_entry strptime f line) as [[e'|]|] eqn:P; try discriminate.
  injection H as ->.
  assert (Hov : oversized f line = false).
  { destruct (oversized f line) eqn:O; [|reflexivity].
    rewrite parse_entry_spec, O in P. discriminate. }
  revert P Hov. unfold parse_entry.
  destruct (String.eqb_spec f "apache") as [->|_].
  { intros P Hov. destruct (re_match apache_re line) as [g|] eqn:M.
    - destruct (matched_entry strptime "apache" _ _ _ eq_refl M Hov)
        as [ts [e' [_ [P' [_ R]]]]].
      unfold parse_entry in P'. cbn [String.eqb Ascii.eqb Bool.eqb] in P'.
      congruence.
    - unfold parse_apache in P. rewrite M in P. discriminate. }
  destruct (String.eqb_spec f "nginx") as [->|_].
  { intros P Hov. destruct (re_match nginx_re line) as [g|] eqn:M.
    - destruct (matched_entry strptime "nginx" _ _ _ eq_refl M Hov)
        as [ts [e' [_ [P' [_ R]]]]].
      unfold parse_entry in P'. cbn [String.eqb Ascii.eqb Bool.eqb] in P'.
      congruence.
    - unfold parse_nginx in P. rewrite M in P. discriminate. }
  destruct (String.eqb_spec f "app") as [->|_].
  { intros P Hov. destruct (re_match app_re line) as [g|] eqn:M.
    - destruct (matched_entry strptime "app" _ _ _ eq_refl M Hov)
        as [ts [e' [_ [P' [_ R]]]]].
      unfold parse_entry in P'. cbn [String.eqb Ascii.eqb Bool.eqb] in P'.
      congruence.
    - unfold parse_app_log in P. rewrite M in P. discriminate. }
  discriminate.
Qed.

Lemma records_of_raw strptime f ls :
  map (fun e => field e "raw_entry") (records_of strptime f ls) =
  map (fun l => Some (VStr l))
      (filter (fun l => is_some (extract strptime f l)) ls).
Proof.
  induction ls as [|l ls IH]; simpl; [reflexivity|].
  destruct (extract strptime f l) as [e|] eqn:E; simpl; [|assumption].
  now rewrite IH, (extract_raw_entry _ _ _ _ E).
Qed.

(** C7 (amended).  The [raw_entry] fields of the records of a parse run
    are, in order, the non-blank lines worked on that yielded a record,
    each with its leading and trailing whitespace (line terminator
    included) stripped: the text handed to the extractor, kept whatever the
    other fields turned out to be.  The loop only appends: from any point
    on, when it returns, the records accumulated so far come out
    unchanged, in front of the later ones. *)
Theorem raw_entry_is_stripped_line strptime content log_format max_lines entries :
  parse_log strptime content log_format max_lines = Ok entries ->
  exists f,
    choose_format content log_format = Ok f /\
    map (fun e => field e "raw_entry") entries =
    map (fun l => Some (VStr l))
        (filter (fun l => is_some (extract strptime f l))
           (processed max_lines 0 (nonblank (file_lines content)))) /\
    forall lines line_count acc result,
      parse_loop strptime f max_lines lines line_count acc = Ok result ->
      exists later, result = (acc ++ later)%list.
Proof.
  intros H. destruct (choose_format content log_format) as [f|x] eqn:C.
  - rewrite (parse_log_spec strptime _ _ _ f C) in H. cbv zeta in H.
    destruct (existsb (oversized f)
                (processed max_lines 0 (nonblank (file_lines content))));
      [discriminate|].
    injection H as <-.
    exists f. split; [reflexivity|]. split; [apply records_of_raw|].
    intros lines line_count acc result. rewrite parse_loop_spec. cbv zeta.
    destruct (existsb (oversized f)
                (processed max_lines line_count (nonblank lines)));
      [discriminate|].
    intros [= <-]. eauto.
  - unfold parse_log in H. rewrite C in H. discriminate.
Qed.

Lemma raw_entry_is_stripped_line_witness :
  exists entries,
    parse_log strptime_ref padded_file None None = Ok entries /\
    exists f,
      choose_format padded_file None = Ok f /\
      map (fun e => field e "raw_entry") entries =
      map (fun l => Some (VStr l))
          (filter (fun l => is_some (extract strptime_ref f l))
             (processed None 0 (nonblank (file_lines padded_file)))) /\
      forall lines line_count acc result,
        parse_loop strptime_ref f None lines line_count acc = Ok result ->
        exists later, result = (acc ++ later)%list.
Proof.
  eexists. split; [vm_compute; reflexivity|].
  exact (raw_entry_is_stripped_line strptime_ref padded_file None None _ eq_refl).
Defined.

Lemma raw_entry_not_verbatim :
  file_lines padded_file = ["  " ++ app_line ++ "  " ++ str1 LF] /\
  exists e,
    parse_log strptime_ref padded_file None None = Ok [e] /\
    field e "raw_entry" = Some (VStr app_line) /\
    field e "raw_entry" <> Some (VStr ("  " ++ app_line ++ "  ")) /\
    field e "raw_entry" <> Some (VStr ("  " ++ app_line ++ "  " ++ str1 LF)).
Proof.
  split; [vm_compute; reflexivity|].
  eexists. split; [vm_compute; reflexivity|].
  split; [reflexivity|]. split; vm_compute; discriminate.
Qed.

(** C10 (amended).  For a non-empty format name outside the registry
    (apache, nginx, app), [parse_log] skips detection, no line goes through
    an extractor, and the result is the empty list, not an error. *)
Theorem unknown_format_yields_nothing strptime content f max_lines :
  is_empty f = false -> ~ In f (map fst patterns) ->
  choose_format content (Some f) = Ok f /\
  (forall line, parse_entry strptime f line = Ok None) /\
  parse_log strptime content (Some f) max_lines = Ok [].
Proof.
  intros He Hn.
  assert (P : forall line, parse_entry strptime f line = Ok None).
  { intros line. unfold parse_entry.
    destruct (String.eqb_spec f "apache") as [->|_];
      [exfalso; apply Hn; simpl; auto|].
    destruct (String.eqb_spec f "nginx") as [->|_];
      [exfalso; apply Hn; simpl; auto|].
    destruct (String.eqb_spec f "app") as [->|_];
      [exfalso; apply Hn; simpl; auto|].
    reflexivity. }
  split; [now apply choose_format_given|]. split; [assumption|].
  rewrite (parse_log_spec strptime _ _ _ f (choose_format_given _ _ He)).
  cbv zeta.
  induction (processed max_lines 0 (nonblank (file_lines content)))
    as [|l ls IH]; simpl; [reflexivity|].
  assert (Ov : oversized f l = false).
  { destruct (oversized f l) eqn:O; [|reflexivity].
    pose proof (P l) as Pl. rewrite parse_entry_spec, O in Pl. discriminate. }
  rewrite Ov. simpl. unfold extract. now rewrite P.
Qed.

Lemma unknown_format_yields_nothing_witness :
  is_empty "iis" = false /\ ~ In "iis" (map fst patterns) /\
  parse_log strptime_ref basic_file (Some "iis") (Some 2) = Ok [].
Proof.
  assert (N : ~ In "iis" (map fst patterns))
    by (simpl; intros [H|[H|[H|[]]]]; discriminate H).
  split; [reflexivity|]. split; [exact N|].
  exact (proj2 (proj2 (unknown_format_yields_nothing strptime_ref basic_file
                         "iis" (Some 2) eq_refl N))).
Defined.

Lemma empty_format_runs_detection :
  ~ In EmptyString (map fst patterns) /\
  exists e1 e2 e3,
    parse_log strptime_ref basic_file (Some EmptyString) None = Ok [e1; e2; e3] /\
    parse_log strptime_ref blank_first_file (Some EmptyString) None
    = Raise ValueError.
Proof.
  split; [simpl; intros [H|[H|[H|[]]]]; discriminate H|].
  do 3 eexists. split; vm_compute; reflexivity.
Qed.

(** ** Analysis on sample records *)

Lemma analyze_uniform_witness :
  (forall e f, In e [web_entry; web_entry] -> In f (selected_fields web_entry) ->
               has_field e f = true) /\
  exists a, analyze [web_entry; web_entry] = Ok a.
Proof.
  assert (U : forall e f, In e [web_entry; web_entry] ->
                In f (selected_fields web_entry) -> has_field e f = true).
  { intros e f [<-|[<-|[]]] Hf; vm_compute in Hf;
      destruct Hf as [<-|[<-|[<-|[]]]]; reflexivity. }
  split; [exact U|].
  exact (proj1 (analyze_uniform web_entry [web_entry]) U).
Defined.

Lemma analyze_mixed_raises :
  exists e1 e2,
    parse_apache strptime_ref basic_dash_line = Ok (Some e1) /\
    parse_app_log strptime_ref app_line = Ok (Some e2) /\
    analyze [e1; e2] = Raise KeyError /\
    analyze [e2; e1] = Raise KeyError.
Proof.
  do 2 eexists. split; [vm_compute; reflexivity|].
  split; [vm_compute; reflexivity|]. split; vm_compute; reflexivity.
Qed.

Lemma analyze_rankings_witness :
  exists a l,
    analyze tie_entries = Ok a /\
    In ("top_ips", "ip") ranked_dimensions /\
    dict_get String.eqb a "top_ips" = Some (Ranking l) /\
    l = [(VStr "A", 2); (VStr "B", 2); (VStr "C", 2)] /\
    exists ks,
      column "ip" tie_entries = map Some ks /\ is_ranking ks l /\
      forall i j x y,
        nth_error l i = Some x -> nth_error l j = Some y ->
        snd x = snd y -> seen_before ks x y -> (i < j)%nat.
Proof.
  do 2 eexists. split; [vm_compute; reflexivity|].
  split; [simpl; auto|]. split; [reflexivity|]. split; [reflexivity|].
  exact (analyze_rankings tie_entries _ "top_ips" "ip" _
           eq_refl (or_introl eq_refl) eq_refl).
Defined.

(** * Further properties *)


(** ** The request text *)
















(** ** Records, line by line *)






(** ** Runs *)





(** ** Numbers *)














(** ** Well-formed lines of the application format *)










(** ** The line cap *)








(** ** Line terminators *)







(** ** Frequency maps *)






(** ** Success and failure of the analysis *)





(** ** Runs without a format *)






(** ** Analysis of a run *)






